(** * gitingest: query resolution and pattern filtering

    A shallow embedding of [src/gitingest/parse_query.py] and the properties
    its specification states about it.

    Python strings are sequences of code points.  They are modelled by
    [string], one [ascii] per code point, which covers the code points
    U+0000 to U+00FF; the character classes below ([isspace], [isalnum])
    are Python's own tables restricted to that range.

    Mutable list objects that are shared and updated in place (the global
    [DEFAULT_IGNORE_PATTERNS] and the working ignore list) live in an
    explicit heap; dictionaries are finite maps from keys to values. *)

From Stdlib Require Import Ascii.
From stdpp Require Import gmap strings list fin_maps.


(** ** Python string primitives *)

(** [str.isspace] on one code point (CPython's [_PyUnicode_IsWhitespace]). *)
Definition isspace (c : ascii) : bool :=
  match c with
  | "009" | "010" | "011" | "012" | "013"
  | "028" | "029" | "030" | "031" | " " | "133" | "160" => true
  | _ => false
  end%char.

(** [str.isalnum] on one code point: letters, decimal digits and the other
    numeric characters of the Unicode database. *)
Definition isalnum (c : ascii) : bool :=
  let n := N_of_ascii c in
  ((48 <=? n) && (n <=? 57) || (65 <=? n) && (n <=? 90)
   || (97 <=? n) && (n <=? 122)
   || (n =? 170) || (n =? 178) || (n =? 179) || (n =? 181)
   || (n =? 185) || (n =? 186) || (188 <=? n) && (n <=? 190)
   || (192 <=? n) && (n <=? 214) || (216 <=? n) && (n <=? 246)
   || (248 <=? n) && (n <=? 255))%N.

(** [all(f(c) for c in s)] *)
Fixpoint str_all (f : ascii → bool) (s : string) : bool :=
  match s with
  | "" => true
  | String c s' => f c && str_all f s'
  end.

(** [s.startswith(p)] *)
Fixpoint startswith (s p : string) {struct p} : bool :=
  match p, s with
  | "", _ => true
  | String a p', String b s' => Ascii.eqb a b && startswith s' p'
  | String _ _, "" => false
  end.

(** [s.endswith(c)] for a one-character suffix *)
Fixpoint endswith (s : string) (c : ascii) : bool :=
  match s with
  | "" => false
  | String a "" => Ascii.eqb a c
  | String _ s' => endswith s' c
  end.

(** [sub in s] *)
Fixpoint contains (sub s : string) : bool :=
  startswith s sub ||
  match s with
  | "" => false
  | String _ s' => contains sub s'
  end.

(** [s.lstrip(chars)] and [s.rstrip(chars)], the character set given as a
    predicate *)
Fixpoint lstrip (f : ascii → bool) (s : string) : string :=
  match s with
  | "" => ""
  | String c s' => if f c then lstrip f s' else s
  end.

Fixpoint rstrip (f : ascii → bool) (s : string) : string :=
  match s with
  | "" => ""
  | String c s' =>
      match rstrip f s' with
      | "" => if f c then "" else String c ""
      | r => String c r
      end
  end.

(** [s.strip()] *)
Definition strip (s : string) : string := rstrip isspace (lstrip isspace s).

(** [s.split(sep)] for a one-character separator; never the empty list *)
Fixpoint split (sep : ascii) (s : string) : list string :=
  match s with
  | "" => [""]
  | String c s' =>
      if Ascii.eqb c sep then "" :: split sep s'
      else match split sep s' with
           | w :: ws => String c w :: ws
           | [] => [String c ""]
           end
  end.

(** [sep.join(l)] *)
Fixpoint join (sep : string) (l : list string) : string :=
  match l with
  | [] => ""
  | [x] => x
  | x :: xs => x +:+ sep +:+ join sep xs
  end.

(** iteration over a text file opened with universal newlines: every line
    keeps its terminator, translated to a line feed; "\r\n" is one
    terminator *)
Fixpoint readlines (s : string) : list string :=
  match s with
  | "" => []
  | String c s' =>
      if Ascii.eqb c "010" then String "010" "" :: readlines s'
      else if Ascii.eqb c "013" then
        String "010" "" ::
          readlines (match s' with String "010"%char t => t | _ => s' end)
      else match readlines s' with
           | l :: ls => String c l :: ls
           | [] => [String c ""]
           end
  end.

(** ** [os.path] on a POSIX system *)

Definition os_sep : ascii := "/".

(** [(p[:i], p[i:])] with [i = p.rfind('/') + 1], the raw split underlying
    [posixpath.dirname] and [posixpath.basename] *)
Fixpoint rsplit_sep (p : string) : string * string :=
  match p with
  | "" => ("", "")
  | String c p' =>
      let (h, t) := rsplit_sep p' in
      if Ascii.eqb c os_sep then (String c h, t)
      else match h with
           | "" => ("", String c t)
           | _ => (String c h, t)
           end
  end.

Definition basename (p : string) : string := snd (rsplit_sep p).

Definition dirname (p : string) : string :=
  let head := fst (rsplit_sep p) in
  if negb (String.eqb head "") && negb (str_all (Ascii.eqb os_sep) head)
  then rstrip (Ascii.eqb os_sep) head
  else head.

(** [os.path.join(a, b)] *)
Definition path_join (a b : string) : string :=
  if startswith b "/" then b
  else if String.eqb a "" || endswith a os_sep then a +:+ b
  else a +:+ "/" +:+ b.

(** ** Python objects, exceptions and the store *)

Definition loc := nat.

Inductive value :=
  | VNone
  | VStr (s : string)
  | VInt (n : Z)
  | VList (l : list string)
  | VRef (r : loc).

Abbreviation dict := (gmap string value).

(** A pattern argument, [Union[List[str], str]]; the default [None] of
    [parse_query] makes its arguments [option str_or_list]. *)
Inductive str_or_list :=
  | PStr (s : string)
  | PList (l : list string).

#[global] Instance str_or_list_eq_dec : EqDecision str_or_list.
Proof. solve_decision. Defined.

(** [if x:] on such an argument: the argument itself when [bool(x)] is
    true, which excludes [None], the empty string and the empty list *)
Definition truthy (x : option str_or_list) : option str_or_list :=
  match x with
  | None => None
  | Some (PStr s) => if String.eqb s "" then None else x
  | Some (PList l) => if bool_decide (l = []) then None else x
  end.

(** the argument seen as a value again, when it is stored unchanged *)
Definition arg_value (x : option str_or_list) : value :=
  match x with
  | None => VNone
  | Some (PStr s) => VStr s
  | Some (PList l) => VList l
  end.

Inductive exn :=
  | ValueError (msg : string)
  | IndexError
  | KeyError (key : string)
  | TypeError
  | IsADirectoryError (path : string)
  | SystemError.

Inductive result (A : Type) :=
  | Ok (a : A)
  | Raise (e : exn).
Arguments Ok {A} a.
Arguments Raise {A} e.

(** An entry of the file system, as [os.path] and [open] see it. *)
Inductive node :=
  | File (text : string)
  | Dir.

(** The store: the heap of mutable list objects and the number of
    identifiers drawn so far from the process-wide generator. *)
Record world := World {
  heap : gmap loc (list string);
  uuid_drawn : nat
}.

Definition M (A : Type) : Type := world → result A * world.

#[global] Instance M_ret : MRet M := λ A a w, (Ok a, w).
#[global] Instance M_bind : MBind M := λ A B f m w,
  match m w with
  | (Ok a, w') => f a w'
  | (Raise e, w') => (Raise e, w')
  end.

Definition raise {A} (e : exn) : M A := λ w, (Raise e, w).

(** an absent [else] branch *)
Definition pass : M unit := mret tt.

(** [for x in l: body(x)] *)
Fixpoint for_ {A} (l : list A) (body : A → M unit) : M unit :=
  match l with
  | [] => mret tt
  | x :: xs => body x ;; for_ xs body
  end.

(** [l[i]] *)
Definition index {A} (l : list A) (i : nat) : M A :=
  match l !! i with
  | Some x => mret x
  | None => raise IndexError
  end.

(** [d[k]] read as a string *)
Definition dict_get_str (d : dict) (k : string) : M string :=
  match d !! k with
  | Some (VStr s) => mret s
  | Some _ => raise TypeError
  | None => raise (KeyError k)
  end.

(** *** List objects *)

(** a new list object *)
Definition list_new (l : list string) : M loc := λ w,
  let r := fresh (dom (heap w)) in
  (Ok r, World (<[r := l]> (heap w)) (uuid_drawn w)).

Definition list_get (r : loc) : M (list string) := λ w,
  match heap w !! r with
  | Some l => (Ok l, w)
  | None => (Raise SystemError, w)
  end.

Definition list_set (r : loc) (l : list string) : M unit := λ w,
  (Ok tt, World (<[r := l]> (heap w)) (uuid_drawn w)).

(** [r.copy()] *)
Definition list_copy (r : loc) : M loc :=
  l ← list_get r; list_new l.

(** [r.extend(l')] *)
Definition list_extend (r : loc) (l' : list string) : M unit :=
  l ← list_get r; list_set r (l ++ l').

(** [x in r] *)
Definition list_mem (r : loc) (x : string) : M bool :=
  l ← list_get r; mret (bool_decide (x ∈ l)).

(** the list without the first item equal to [x] *)
Fixpoint remove_first (x : string) (l : list string) : list string :=
  match l with
  | [] => []
  | y :: l' => if decide (x = y) then l' else y :: remove_first x l'
  end.

(** [r.remove(x)] *)
Definition list_remove (r : loc) (x : string) : M unit :=
  l ← list_get r;
  if bool_decide (x ∈ l) then list_set r (remove_first x l)
  else raise (ValueError "list.remove(x): x not in list").

(** ** The module [parse_query] *)

(** The list literal bound to [DEFAULT_IGNORE_PATTERNS] when the module is
    loaded. *)
Definition DEFAULT_IGNORE_PATTERNS_init : list string :=
  [ (* Python *)
    "*.pyc"; "*.pyo"; "*.pyd"; "__pycache__"; ".pytest_cache"; ".coverage";
    ".tox"; ".nox"; ".mypy_cache"; ".ruff_cache"; ".hypothesis";
    "poetry.lock"; "Pipfile.lock";
    (* JavaScript/Node *)
    "node_modules"; "bower_components"; "package-lock.json"; "yarn.lock";
    ".npm"; ".yarn"; ".pnpm-store";
    (* Version control *)
    ".git"; ".svn"; ".hg"; ".gitignore"; ".gitattributes"; ".gitmodules";
    (* Images and media *)
    "*.svg"; "*.png"; "*.jpg"; "*.jpeg"; "*.gif"; "*.ico"; "*.pdf";
    "*.mov"; "*.mp4"; "*.mp3"; "*.wav";
    (* Virtual environments *)
    "venv"; ".venv"; "env"; ".env"; "virtualenv";
    (* IDEs and editors *)
    ".idea"; ".vscode"; ".vs"; "*.swp"; "*.swo"; "*.swn";
    ".settings"; ".project"; ".classpath"; "*.sublime-*";
    (* Temporary and cache files *)
    "*.log"; "*.bak"; "*.swp"; "*.tmp"; "*.temp";
    ".cache"; ".sass-cache"; ".eslintcache";
    ".DS_Store"; "Thumbs.db"; "desktop.ini";
    (* Build directories and artifacts *)
    "build"; "dist"; "target"; "out";
    "*.egg-info"; "*.egg"; "*.whl";
    "*.so"; "*.dylib"; "*.dll"; "*.class";
    (* Documentation *)
    "site-packages"; ".docusaurus"; ".next"; ".nuxt";
    (* Other common patterns *)
    "*.min.js"; "*.min.css";
    "*.map";
    ".terraform"; "*.tfstate*";
    "vendor/" ].

(** The global name [DEFAULT_IGNORE_PATTERNS]: a reference to one list
    object, shared by every call. *)
Definition DEFAULT_IGNORE_PATTERNS : loc := 0.

(** The store right after the module has been loaded. *)
Definition module_world : world :=
  World {[ DEFAULT_IGNORE_PATTERNS := DEFAULT_IGNORE_PATTERNS_init ]} 0.

Definition TMP_BASE_PATH : string := "../tmp".

Definition invalid_url_msg : string :=
  "Invalid repository URL. Please provide a valid Git repository URL.".

Definition invalid_pattern_msg (p : string) : string :=
  "Pattern '" +:+ p +:+ "' contains invalid characters. Only alphanumeric characters, dash (-), underscore (_), dot (.), forward slash (/), plus (+), and asterisk (*) are allowed.".

(** [c in chars] for a character [c] *)
Definition char_in (chars : string) (c : ascii) : bool :=
  contains (String c "") chars.

Definition normalize_pattern (pattern : string) : string :=
  let pattern := strip pattern in
  let pattern := lstrip (char_in (String os_sep "")) pattern in
  if endswith pattern os_sep then pattern +:+ "*" else pattern.

(** The character test of [parse_patterns]:
    [c.isalnum() or c in "-_./+*"]. *)
Definition allowed_char (c : ascii) : bool :=
  isalnum c || char_in "-_./+*" c.

(** A pattern passes validation when every character of the stripped
    pattern is allowed. *)
Definition valid_pattern (p : string) : bool := str_all allowed_char (strip p).

Definition parse_patterns (pattern : str_or_list) : M (list string) :=
  let pattern :=
    match pattern with
    | PList l => join "," l
    | PStr s => s
    end in
  for_ (split "," pattern) (λ p : string,
    if negb (valid_pattern p)
    then raise (ValueError (invalid_pattern_msg p))
    else pass) ;;
  mret (normalize_pattern <$> split "," pattern).

Definition override_ignore_patterns
    (ignore_patterns : loc) (include_patterns : list string) : M loc :=
  for_ include_patterns (λ pattern : string,
    b ← list_mem ignore_patterns pattern;
    if b : bool then list_remove ignore_patterns pattern else pass) ;;
  mret ignore_patterns.

Section locators.

(** The environment of a call: the file system as [os.path.exists],
    [os.path.isdir] and [open] see it, [os.path.abspath] (which depends on
    the working directory), and the identifiers [uuid.uuid4] hands out, in
    order.  Output written with [print] is diagnostic and is not
    modelled. *)
Variable fs : string → option node.
Variable abspath : string → string.
Variable uuid4 : nat → string.

Definition path_exists (p : string) : bool :=
  match fs p with Some _ => true | None => false end.

Definition path_isdir (p : string) : bool :=
  match fs p with Some Dir => true | _ => false end.

(** [open(p, 'r', encoding='utf-8')] followed by reading the text *)
Definition open_read (p : string) : M string :=
  match fs p with
  | Some (File text) => mret text
  | Some Dir => raise (IsADirectoryError p)
  | None => raise SystemError
  end.

(** [str(uuid.uuid4())] *)
Definition uuid_uuid4 : M string := λ w,
  (Ok (uuid4 (uuid_drawn w)), World (heap w) (S (uuid_drawn w))).

Definition parse_url (url : string) : M dict :=
  let parsed : dict :=
    list_to_map
      [ ("user_name", VNone); ("repo_name", VNone); ("type", VNone);
        ("branch", VNone); ("commit", VNone); ("subpath", VStr "/");
        ("local_path", VNone); ("url", VNone); ("slug", VNone);
        ("id", VNone) ] in
  url ← index (split " " url) 0;
  let url := if negb (startswith url "https://")
             then "https://" +:+ url else url in
  let url_parts := split "/" url in
  domain ← index url_parts 2;
  let path_parts := drop 3 url_parts in
  if length path_parts <? 2 then raise (ValueError invalid_url_msg)
  else
    user_name ← index path_parts 0;
    let parsed := <["user_name" := VStr user_name]> parsed in
    repo_name ← index path_parts 1;
    let parsed := <["repo_name" := VStr repo_name]> parsed in
    let parsed :=
      <["url" := VStr ("https://" +:+ domain +:+ "/" +:+ user_name
                        +:+ "/" +:+ repo_name)]> parsed in
    let slug := user_name +:+ "-" +:+ repo_name in
    let parsed := <["slug" := VStr slug]> parsed in
    id ← uuid_uuid4;
    let parsed := <["id" := VStr id]> parsed in
    let parsed :=
      <["local_path" :=
          VStr (TMP_BASE_PATH +:+ "/" +:+ id +:+ "/" +:+ slug)]> parsed in
    if 3 <? length path_parts then
      type ← index path_parts 2;
      let parsed := <["type" := VStr type]> parsed in
      branch ← index path_parts 3;
      let parsed := <["branch" := VStr branch]> parsed in
      let parsed :=
        if (String.length branch =? 40)
           && str_all (char_in "0123456789abcdefABCDEF") branch
        then <["commit" := VStr branch]> parsed
        else parsed in
      mret (<["subpath" :=
                VStr ("/" +:+ join "/" (drop 4 path_parts))]> parsed)
    else mret parsed.

Definition parse_path (path : string) : M dict :=
  id ← uuid_uuid4;
  mret (list_to_map
          [ ("local_path", VStr (abspath path));
            ("slug", VStr (basename (dirname path) +:+ "/"
                             +:+ basename path));
            ("subpath", VStr "/");
            ("id", VStr id);
            ("url", VNone) ]).

End locators.

(** The module defines [parse_query] twice.  The first definition, below,
    is rebound by the second one when the module is loaded: callers of
    [parse_query] run the second. *)
Module Shadowed.
Section program.

Variable abspath : string → string.
Variable uuid4 : nat → string.

Definition parse_query (source : string) (max_file_size : Z)
    (from_web : bool) (include_patterns ignore_patterns : option str_or_list)
    : M dict :=
  query ←
    (if from_web then parse_url uuid4 source
     else if startswith source "https://" || contains "github.com" source
          then parse_url uuid4 source
          else parse_path abspath uuid4 source);
  let query := <["max_file_size" := VInt max_file_size]> query in
  ignore_patterns ←
    match truthy ignore_patterns with
    | Some x =>
        if negb (bool_decide (x = PStr "")) then
          defaults ← list_get DEFAULT_IGNORE_PATTERNS;
          patterns ← parse_patterns x;
          list_new (defaults ++ patterns)
        else mret DEFAULT_IGNORE_PATTERNS
    | None => mret DEFAULT_IGNORE_PATTERNS
    end;
  '(include_patterns, ignore_patterns) ←
    match truthy include_patterns with
    | Some x =>
        if negb (bool_decide (x = PStr "")) then
          include_patterns ← parse_patterns x;
          ignore_patterns ←
            override_ignore_patterns ignore_patterns include_patterns;
          mret (VList include_patterns, ignore_patterns)
        else mret (VNone, ignore_patterns)
    | None => mret (VNone, ignore_patterns)
    end;
  let query := <["ignore_patterns" := VRef ignore_patterns]> query in
  let query := <["include_patterns" := include_patterns]> query in
  mret query.

End program.
End Shadowed.

Section program.

Variable fs : string → option node.
Variable abspath : string → string.
Variable uuid4 : nat → string.

Definition parse_gitignore (gitignore_path : string) : M (list string) :=
  if path_exists fs gitignore_path then
    text ← open_read fs gitignore_path;
    mret (foldl (λ ignore_patterns line,
            let line := strip line in
            if negb (String.eqb line "") && negb (startswith line "#")
            then
              let line :=
                if path_isdir fs
                     (path_join (dirname gitignore_path) line)
                then rstrip (char_in "/") line +:+ "/"
                else line in
              ignore_patterns ++ [line]
            else ignore_patterns)
          [] (readlines text))
  else mret [].

Definition parse_query (source : string) (max_file_size : Z)
    (from_web : bool) (include_patterns ignore_patterns : option str_or_list)
    : M dict :=
  query ←
    (if from_web then parse_url uuid4 source
     else parse_path abspath uuid4 source);
  let query := <["max_file_size" := VInt max_file_size]> query in
  final_ignore_patterns ← list_copy DEFAULT_IGNORE_PATTERNS;
  local_path ← dict_get_str query "local_path";
  let gitignore_path := path_join local_path ".gitignore" in
  (if path_exists fs gitignore_path then
     gitignore_patterns ← parse_gitignore gitignore_path;
     list_extend final_ignore_patterns gitignore_patterns
   else pass) ;;
  match truthy ignore_patterns with
  | Some x =>
      patterns ← parse_patterns x;
      list_extend final_ignore_patterns patterns
  | None => pass
  end ;;
  '(include_patterns, final_ignore_patterns) ←
    match truthy include_patterns with
    | Some x =>
        include_patterns ← parse_patterns x;
        final_ignore_patterns ←
          override_ignore_patterns final_ignore_patterns include_patterns;
        mret (VList include_patterns, final_ignore_patterns)
    | None => mret (arg_value include_patterns, final_ignore_patterns)
    end;
  let query := <["ignore_patterns" := VRef final_ignore_patterns]> query in
  let query := <["include_patterns" := include_patterns]> query in
  mret query.

End program.

(** a test environment *)
Definition no_files : string → option node := λ _, None.
Definition test_abspath (p : string) : string := path_join "/work" p.
Definition test_uuid4 (n : nat) : string :=
  "00000000-0000-4000-8000-00000000000" +:+ String (ascii_of_nat (48 + n)) "".

(** The tokens [parse_patterns] validates and normalises: the argument,
    joined with commas when it is a list, split at every comma. *)
Definition pattern_tokens (x : str_or_list) : list string :=
  split ","
    match x with
    | PList l => join "," l
    | PStr s => s
    end.

(** The character set [A-Za-z0-9-_./+*], by code point. *)
Definition in_ascii_charset (c : ascii) : bool :=
  let n := N_of_ascii c in
  ((48 <=? n) && (n <=? 57) || (65 <=? n) && (n <=? 90)
   || (97 <=? n) && (n <=? 122)
   || (n =? 45) || (n =? 95) || (n =? 46) || (n =? 47) || (n =? 43)
   || (n =? 42))%N.

(** The values [parse_url] computes on the way: the locator up to the
    first space, the same with the scheme put in front when it does not
    start with it, its pieces between slashes, and the pieces after the
    domain. *)
Definition first_token (url : string) : string := hd "" (split " " url).

Definition with_https (url : string) : string :=
  if negb (startswith url "https://") then "https://" +:+ url else url.

Definition url_parts (url : string) : list string :=
  split "/" (with_https (first_token url)).

Definition path_parts (url : string) : list string := drop 3 (url_parts url).

(** The test that makes a branch a commit:
    [len(branch) == 40 and all(c in '0123456789abcdefABCDEF' ...)]. *)
Definition is_commit (branch : string) : bool :=
  (String.length branch =? 40)
  && str_all (char_in "0123456789abcdefABCDEF") branch.

(** A hexadecimal digit in either case, by code point. *)
Definition is_hex_digit (c : ascii) : bool :=
  let n := N_of_ascii c in
  ((48 <=? n) && (n <=? 57) || (65 <=? n) && (n <=? 70)
   || (97 <=? n) && (n <=? 102))%N.

(** The text before the first character that satisfies [f]. *)
Fixpoint take_until (f : ascii → bool) (s : string) : string :=
  match s with
  | "" => ""
  | String c s' => if f c then "" else String c (take_until f s')
  end.

(** A field of a descriptor is set when it holds something other than
    [None]. *)
Definition is_set (q : dict) (k : string) : Prop :=
  ∃ v, q !! k = Some v ∧ v ≠ VNone.

(** A piece of a locator: free of slashes and spaces. *)
Definition is_piece (s : string) : bool :=
  str_all (λ c, negb (Ascii.eqb c "/") && negb (Ascii.eqb c " ")) s.

(** A field of the descriptor a call returned; nothing when the call
    raised. *)
Definition field (r : result dict * world) (k : string) : option value :=
  match r.1 with
  | Ok q => q !! k
  | Raise _ => None
  end.

Definition commit_url : string :=
  "https://github.com/foo/bar/commit/0123456789abcdefABCDEF0123456789abcdefAB".

(** The patterns of an ignore file as the specification words them: the
    stripped lines, without the blank ones and the comments, each line that
    names a directory ending in exactly one slash. *)
Definition gitignore_keep (line : string) : bool :=
  negb (String.eqb line "") && negb (startswith line "#").

Definition gitignore_mark
    (fs : string → option node) (gitignore_path line : string) : string :=
  if path_isdir fs (path_join (dirname gitignore_path) line)
  then rstrip (char_in "/") line +:+ "/"
  else line.

Definition gitignore_lines
    (fs : string → option node) (gitignore_path text : string) : list string :=
  gitignore_mark fs gitignore_path
    <$> List.filter gitignore_keep (strip <$> readlines text).

(** A file system with one ignore file and one directory next to it. *)
Definition test_fs (p : string) : option node :=
  if String.eqb p "/work/repo/.gitignore" then
    Some (File "# build output
build
  dist/  

*.log")
  else if String.eqb p "/work/repo/build" then Some Dir
  else if String.eqb p "/work/repo" then Some Dir
  else None.

(** A computation leaves the list object at [r] as it is, whatever the
    store it starts from and whether it returns or raises. *)
Definition preserves {A} (r : loc) (m : M A) : Prop :=
  ∀ w, heap (m w).2 !! r = heap w !! r.

(** A computation that does not touch the store at all. *)
Definition pure {A} (m : M A) : Prop := ∀ w, (m w).2 = w.

(** The list a call left in the field [ignore_patterns] of the descriptor
    it returned. *)
Definition ignore_list (r : result dict * world) : option (list string) :=
  match field r "ignore_patterns" with
  | Some (VRef l) => heap r.2 !! l
  | _ => None
  end.

(** The patterns a pattern argument of [parse_query] contributes: none
    when the argument is [None] or empty, the normalised tokens
    otherwise. *)
Definition user_patterns (x : option str_or_list) : list string :=
  match truthy x with
  | Some x => normalize_pattern <$> pattern_tokens x
  | None => []
  end.

(** The patterns of the ignore file found at [local_path], none when there
    is no such file. *)
Definition gitignore_patterns
    (fs : string → option node) (local_path : string) : list string :=
  match fs (path_join local_path ".gitignore") with
  | Some (File text) =>
      gitignore_lines fs (path_join local_path ".gitignore") text
  | _ => []
  end.

(** What [override_ignore_patterns] leaves of a list: for each include
    pattern in turn, the first item equal to it is removed. *)
Definition remove_each_once
    (ignore include : list string) : list string :=
  foldl (λ acc p, remove_first p acc) ignore include.

(** What the specification asks for: every item equal to an include
    pattern is removed. *)
Definition remove_all (ignore include : list string) : list string :=
  List.filter (λ p, negb (bool_decide (p ∈ include))) ignore.

(** How often a character occurs in a string. *)
Fixpoint count_char (c : ascii) (s : string) : nat :=
  match s with
  | "" => 0
  | String a s' => (if Ascii.eqb a c then 1 else 0) + count_char c s'
  end.

(** The text [parse_patterns] splits: the argument itself, or its items
    joined with commas. *)
Definition pattern_text (x : str_or_list) : string :=
  match x with
  | PList l => join "," l
  | PStr s => s
  end.

(** A store with two lists, one of them with a duplicate. *)
Definition two_lists : world :=
  World {[ 0 := ["*.log"; "build"; "*.log"]; 1 := ["dist"; "out"; "tmp"] ]} 0.

(** How many items of a list are equal to [x]. *)
Definition occurs (x : string) (l : list string) : nat :=
  length (List.filter (λ y, bool_decide (y = x)) l).

(** Whether a call returned, rather than raised. *)
Definition returns {A} (r : result A * world) : bool :=
  match r.1 with
  | Ok _ => true
  | Raise _ => false
  end.

(** * Properties *)

(** ** Strings *)

Section string_facts.
Implicit Types (s t p : string) (c : ascii) (f : ascii → bool).

Lemma str_app_cons c s t : String c s +:+ t = String c (s +:+ t).
Proof. reflexivity. Qed.

Lemma str_app_empty_l s : "" +:+ s = s.
Proof. reflexivity. Qed.

Lemma str_app_empty_r s : s +:+ "" = s.
Proof. induction s as [|c s IH]; [done|]. by rewrite str_app_cons, IH. Qed.

Lemma str_app_assoc s t p : (s +:+ t) +:+ p = s +:+ t +:+ p.
Proof. induction s as [|c s IH]; [done|]. by rewrite !str_app_cons, IH. Qed.

Lemma str_all_app f s t : str_all f (s +:+ t) = str_all f s && str_all f t.
Proof.
  induction s as [|c s IH]; [done|].
  rewrite str_app_cons. simpl. by rewrite IH, andb_assoc.
Qed.

Lemma str_all_impl f g s :
  (∀ c, f c = true → g c = true) → str_all f s = true → str_all g s = true.
Proof.
  intros Hfg. induction s as [|c s IH]; simpl; [done|].
  intros [Hc Hs]%andb_prop. by rewrite (Hfg c Hc), IH.
Qed.

Lemma startswith_spec s p : startswith s p = true ↔ ∃ r, s = p +:+ r.
Proof.
  revert s. induction p as [|a p IH]; intros s; simpl.
  - split; [intros _; by exists s|done].
  - destruct s as [|b s].
    + split; [done|]. by intros [r ?].
    + rewrite andb_true_iff, Ascii.eqb_eq, IH. split.
      * intros [-> [r ->]]. by exists r.
      * intros [r Hr]. rewrite str_app_cons in Hr. injection Hr as -> ->. eauto.
Qed.

(** [lstrip] keeps a suffix, so whatever holds of every character still
    holds. *)
Lemma str_all_lstrip f g s :
  str_all g s = true → str_all g (lstrip f s) = true.
Proof.
  induction s as [|c s IH]; simpl; [done|].
  intros [Hc Hs]%andb_prop. destruct (f c); [by apply IH|].
  simpl. by rewrite Hc, Hs.
Qed.

Lemma rstrip_cons_nonempty f c s :
  rstrip f s ≠ "" → rstrip f (String c s) = String c (rstrip f s).
Proof. simpl. by destruct (rstrip f s). Qed.

Lemma str_all_rstrip f g s :
  str_all g s = true → str_all g (rstrip f s) = true.
Proof.
  induction s as [|c s IH]; simpl; [done|].
  intros [Hc Hs]%andb_prop. specialize (IH Hs).
  destruct (rstrip f s) as [|c' r].
  - destruct (f c); simpl; [done|]. by rewrite Hc.
  - simpl in *. by rewrite Hc, IH.
Qed.

Lemma lstrip_id f s : str_all (λ c, negb (f c)) s = true → lstrip f s = s.
Proof. destruct s as [|c s]; simpl; [done|]. by destruct (f c). Qed.

Lemma rstrip_id f s : str_all (λ c, negb (f c)) s = true → rstrip f s = s.
Proof.
  induction s as [|c s IH]; simpl; [done|].
  intros [Hc Hs]%andb_prop. rewrite (IH Hs).
  destruct s; [|done]. by destruct (f c).
Qed.

(** What is left of [lstrip] no longer starts with a stripped
    character. *)
Lemma lstrip_head f s :
  match lstrip f s with String c _ => f c = false | "" => True end.
Proof.
  induction s as [|c s IH]; simpl; [done|].
  destruct (f c) eqn:Hc; [done|]. by simpl.
Qed.

Lemma lstrip_idemp f s : lstrip f (lstrip f s) = lstrip f s.
Proof.
  pose proof (lstrip_head f s) as H.
  destruct (lstrip f s) as [|c r]; simpl; [done|]. by rewrite H.
Qed.

Lemma endswith_app_char s c d : endswith (s +:+ String c "") d = Ascii.eqb c d.
Proof.
  induction s as [|a s IH]; [done|].
  rewrite str_app_cons. simpl. rewrite IH.
  by destruct s.
Qed.

Lemma char_in_single c d : char_in (String d "") c = Ascii.eqb c d.
Proof.
  unfold char_in. simpl. rewrite Ascii.eqb_sym.
  by destruct (Ascii.eqb d c).
Qed.

End string_facts.

(** ** Pattern normalisation *)

Lemma allowed_char_not_space c : allowed_char c = true → isspace c = false.
Proof. destruct c as [[] [] [] [] [] [] [] []]; vm_compute; congruence. Qed.

Lemma strip_id s : str_all allowed_char s = true → strip s = s.
Proof.
  intros Hs.
  assert (str_all (λ c, negb (isspace c)) s = true) as Hns.
  { revert Hs. apply str_all_impl. intros c Hc.
    by rewrite (allowed_char_not_space c Hc). }
  unfold strip. by rewrite (lstrip_id _ _ Hns), (rstrip_id _ _ Hns).
Qed.

(** A string is in normal form when normalising leaves it alone: no
    white space at either end, no leading separator, no trailing
    separator. *)
Lemma normalize_pattern_fixed s :
  str_all allowed_char s = true →
  lstrip (char_in (String os_sep "")) s = s →
  endswith s os_sep = false →
  normalize_pattern s = s.
Proof.
  intros Hs Hl He. unfold normalize_pattern.
  rewrite (strip_id s Hs). cbv zeta. by rewrite Hl, He.
Qed.

(** C8: [normalize_pattern] is idempotent on every pattern that passes
    validation. *)
Theorem normalize_pattern_idempotent (p : string) :
  valid_pattern p = true →
  normalize_pattern (normalize_pattern p) = normalize_pattern p.
Proof.
  unfold valid_pattern. intros Hv.
  unfold normalize_pattern at 2 3. cbv zeta.
  set (q := lstrip (char_in (String os_sep "")) (strip p)).
  assert (str_all allowed_char q = true) as Hq by by apply str_all_lstrip.
  pose proof (lstrip_head (char_in (String os_sep "")) (strip p)) as Hhd.
  fold q in Hhd.
  destruct (endswith q os_sep) eqn:He.
  - apply normalize_pattern_fixed.
    + by rewrite str_all_app, Hq.
    + destruct q as [|c q']; [done|].
      rewrite str_app_cons. simpl. by rewrite Hhd.
    + by rewrite endswith_app_char.
  - apply normalize_pattern_fixed; [done| |done].
    apply lstrip_idemp.
Qed.

Lemma normalize_pattern_idempotent_witness :
  valid_pattern " /build/ " = true ∧
  normalize_pattern (normalize_pattern " /build/ ") = "build/*".
Proof.
  split; [reflexivity|].
  rewrite (normalize_pattern_idempotent " /build/ "); reflexivity.
Defined.

(** ** Pattern validation *)

Lemma for_check {A} (l : list A) (chk : A → bool) (e : A → exn) (w : world) :
  for_ l (λ p, if negb (chk p) then raise (e p) else pass) w =
  match find (λ p, negb (chk p)) l with
  | Some p => (Raise (e p), w)
  | None => (Ok tt, w)
  end.
Proof.
  induction l as [|p l IH]; [done|].
  simpl. unfold mbind, M_bind.
  destruct (negb (chk p)); [done|]. apply IH.
Qed.

Lemma parse_patterns_eq (x : str_or_list) (w : world) :
  parse_patterns x w =
  match find (λ p, negb (valid_pattern p)) (pattern_tokens x) with
  | Some p => (Raise (ValueError (invalid_pattern_msg p)), w)
  | None => (Ok (normalize_pattern <$> pattern_tokens x), w)
  end.
Proof.
  unfold parse_patterns, pattern_tokens, mbind, M_bind.
  rewrite (for_check _ valid_pattern (λ p, ValueError (invalid_pattern_msg p))).
  by destruct (find _ _).
Qed.

(** On ASCII the allowed characters are exactly [A-Za-z0-9-_./+*]. *)
Lemma allowed_char_ascii c :
  (N_of_ascii c < 128)%N → allowed_char c = in_ascii_charset c.
Proof.
  destruct c as [[] [] [] [] [] [] [] []]; vm_compute; congruence.
Qed.

(** C7, as the code has it: [parse_patterns] raises exactly when some
    comma-separated token, once stripped, has a character that is neither
    alphanumeric in the sense of [str.isalnum] (which accepts letters and
    digits beyond ASCII) nor one of [-_./+*]; the error names the first
    such token and nothing is returned; otherwise the normalised tokens are
    returned in order.  The store is untouched either way. *)
Theorem parse_patterns_validation (x : str_or_list) (w : world) :
  ((∃ p, p ∈ pattern_tokens x ∧ str_all allowed_char (strip p) = false) ↔
   (∃ e, parse_patterns x w = (Raise e, w))) ∧
  match find (λ p, negb (valid_pattern p)) (pattern_tokens x) with
  | Some p =>
      parse_patterns x w = (Raise (ValueError (invalid_pattern_msg p)), w)
  | None =>
      parse_patterns x w = (Ok (normalize_pattern <$> pattern_tokens x), w)
  end.
Proof.
  rewrite parse_patterns_eq.
  destruct (find _ _) as [p|] eqn:Hfind; (split; [split|done]).
  - eauto.
  - intros _. apply find_some in Hfind as [Hin Hp].
    exists p. split; [by apply list_elem_of_In|].
    by apply negb_true_iff in Hp.
  - intros (p & Hin & Hp). apply list_elem_of_In in Hin.
    pose proof (find_none _ _ Hfind p Hin) as Hok.
    unfold valid_pattern in Hok. rewrite Hp in Hok. done.
  - by intros [e ?].
Qed.

(** C7 as stated fails: the one-character token U+00E9 lies outside
    [A-Za-z0-9-_./+*] and is accepted. *)
Lemma parse_patterns_accepts_e_acute :
  let p := String "233" "" in
  pattern_tokens (PStr p) = [p] ∧
  str_all in_ascii_charset (strip p) = false ∧
  parse_patterns (PStr p) module_world = (Ok [p], module_world).
Proof. repeat split; reflexivity. Qed.

(** ** Splitting *)

Lemma split_nonempty sep s : ∃ w ws, split sep s = w :: ws.
Proof.
  destruct s as [|c s]; simpl; [eauto|].
  destruct (Ascii.eqb c sep); [eauto|].
  destruct (split sep s); eauto.
Qed.

Lemma split_lookup_0 sep s : split sep s !! 0 = Some (hd "" (split sep s)).
Proof. by destruct (split_nonempty sep s) as (w & ws & ->). Qed.

Lemma split_cons_sep sep s : split sep (String sep s) = "" :: split sep s.
Proof. simpl. by rewrite Ascii.eqb_refl. Qed.

Lemma split_cons_other sep c s w ws :
  c ≠ sep → split sep s = w :: ws →
  split sep (String c s) = String c w :: ws.
Proof.
  intros Hc Hs. simpl. rewrite Hs.
  by destruct (Ascii.eqb_spec c sep).
Qed.

(** A piece free of the separator, followed by the separator, is the first
    item of the split. *)
Lemma split_app_sep sep a b :
  str_all (λ c, negb (Ascii.eqb c sep)) a = true →
  split sep (a +:+ String sep b) = a :: split sep b.
Proof.
  induction a as [|c a IH]; intros Ha.
  - rewrite str_app_empty_l. apply split_cons_sep.
  - simpl in Ha. apply andb_prop in Ha as [Hc Ha].
    rewrite str_app_cons. apply split_cons_other; [|by apply IH].
    apply negb_true_iff in Hc. by destruct (Ascii.eqb_spec c sep).
Qed.

Lemma split_no_sep sep a :
  str_all (λ c, negb (Ascii.eqb c sep)) a = true → split sep a = [a].
Proof.
  induction a as [|c a IH]; intros Ha; [done|].
  simpl in Ha. apply andb_prop in Ha as [Hc Ha].
  apply negb_true_iff in Hc.
  apply split_cons_other; [by destruct (Ascii.eqb_spec c sep)|by apply IH].
Qed.

Lemma split_https r :
  split "/" ("https://" +:+ r) = "https:" :: "" :: split "/" r.
Proof.
  destruct (split_nonempty "/" r) as (w & ws & Hr).
  change ("https://" +:+ r) with ("https:" +:+ String "/" (String "/" r)).
  rewrite split_app_sep by done. by rewrite split_cons_sep.
Qed.

Lemma with_https_shape u : ∃ r, with_https u = "https://" +:+ r.
Proof.
  unfold with_https. destruct (startswith u "https://") eqn:Hs; simpl.
  - by apply startswith_spec.
  - by exists u.
Qed.

(** After the scheme has been put in front there are always a scheme
    piece, an empty piece and a domain: indexing the domain cannot fail. *)
Lemma url_parts_shape url :
  ∃ domain segs, url_parts url = "https:" :: "" :: domain :: segs.
Proof.
  unfold url_parts.
  destruct (with_https_shape (first_token url)) as [r ->].
  rewrite split_https.
  destruct (split_nonempty "/" r) as (w & ws & ->). eauto.
Qed.

(** ** Running the monad *)

Lemma bind_index {A B} (l : list A) (i : nat) (x : A) (f : A → M B) w :
  l !! i = Some x → (index l i ≫= f) w = f x w.
Proof. intros H. unfold index, mbind, M_bind. by rewrite H. Qed.

Lemma bind_ret {A B} (a : A) (f : A → M B) w : (mret a ≫= f) w = f a w.
Proof. done. Qed.

Lemma bind_raise {A B} (e : exn) (f : A → M B) w :
  (raise e ≫= f) w = (Raise e, w).
Proof. done. Qed.

Lemma bind_assoc {A B C} (m : M A) (f : A → M B) (g : B → M C) w :
  ((m ≫= f) ≫= g) w = (m ≫= λ a, f a ≫= g) w.
Proof. unfold mbind, M_bind. by destruct (m w) as [[a|e] w']. Qed.

(** ** Remote locators *)

Section parse_url_facts.
Variable uuid4 : nat → string.

Lemma bind_uuid4 {B} (f : string → M B) w :
  (uuid_uuid4 uuid4 ≫= f) w =
  f (uuid4 (uuid_drawn w)) (World (heap w) (S (uuid_drawn w))).
Proof. done. Qed.

(** What [parse_url] returns, read off the pieces of the locator. *)
Lemma parse_url_fields url w domain segs :
  url_parts url = "https:" :: "" :: domain :: segs →
  match segs with
  | user :: repo :: rest =>
      ∃ q, parse_url uuid4 url w
           = (Ok q, World (heap w) (S (uuid_drawn w))) ∧
        q !! "user_name" = Some (VStr user) ∧
        q !! "repo_name" = Some (VStr repo) ∧
        q !! "url" =
          Some (VStr ("https://" +:+ domain +:+ "/" +:+ user
                        +:+ "/" +:+ repo)) ∧
        match rest with
        | type :: branch :: sub =>
            q !! "type" = Some (VStr type) ∧
            q !! "branch" = Some (VStr branch) ∧
            q !! "commit" =
              Some (if is_commit branch then VStr branch else VNone) ∧
            q !! "subpath" = Some (VStr ("/" +:+ join "/" sub))
        | _ =>
            q !! "type" = Some VNone ∧
            q !! "branch" = Some VNone ∧
            q !! "commit" = Some VNone ∧
            q !! "subpath" = Some (VStr "/")
        end
  | _ => parse_url uuid4 url w = (Raise (ValueError invalid_url_msg), w)
  end.
Proof.
  intros Hparts. unfold parse_url.
  rewrite (bind_index _ _ _ _ _ (split_lookup_0 " " url)).
  fold (first_token url). fold (with_https (first_token url)).
  fold (url_parts url). rewrite Hparts.
  rewrite (bind_index _ 2 domain) by done.
  change (drop 3 ("https:" :: "" :: domain :: segs)) with segs.
  destruct segs as [|user [|repo rest]]; [done..|].
  change (length (user :: repo :: rest) <? 2) with false. cbv iota.
  rewrite (bind_index _ 0 user) by done.
  rewrite (bind_index _ 1 repo) by done.
  rewrite bind_uuid4.
  destruct rest as [|type [|branch sub]].
  - eexists. split; [reflexivity|]. by repeat split.
  - eexists. split; [reflexivity|]. by repeat split.
  - change (3 <? length (user :: repo :: type :: branch :: sub)) with true.
    cbv iota.
    rewrite (bind_index _ 2 type) by done.
    rewrite (bind_index _ 3 branch) by done.
    fold (is_commit branch).
    eexists. split; [reflexivity|].
    destruct (is_commit branch); by repeat split.
Qed.
End parse_url_facts.

Section parse_url_claims.
Variable uuid4 : nat → string.

(** The locator is cut at the first space character, and only there. *)
Lemma first_token_take_until url :
  first_token url = take_until (λ c, Ascii.eqb c " ") url.
Proof.
  unfold first_token. induction url as [|c url IH]; [done|].
  simpl. destruct (Ascii.eqb c " "); [done|].
  destruct (split_nonempty " " url) as (t & ts & Hs).
  rewrite Hs in *. simpl in *. by rewrite IH.
Qed.

Lemma parse_url_cases url w :
  (length (path_parts url) < 2 ∧
   parse_url uuid4 url w = (Raise (ValueError invalid_url_msg), w)) ∨
  (2 ≤ length (path_parts url) ∧
   ∃ q, parse_url uuid4 url w = (Ok q, World (heap w) (S (uuid_drawn w)))).
Proof.
  destruct (url_parts_shape url) as (domain & segs & Hparts).
  pose proof (parse_url_fields uuid4 url w domain segs Hparts) as H.
  unfold path_parts. rewrite Hparts. simpl.
  destruct segs as [|user [|repo rest]]; simpl.
  - left. split; [lia|done].
  - left. split; [lia|done].
  - right. split; [lia|]. destruct H as (q & Hq & _). eauto.
Qed.

(** C4, as the code has it: the locator is cut at the first space
    character (U+0020; other white space is kept), the scheme is put in
    front when the locator does not start with it, and [parse_url] raises
    its [ValueError] exactly when fewer than two pieces follow the domain.
    With two or more it returns a descriptor; no other exception arises,
    and a failure returns nothing and leaves the store as it was. *)
Theorem parse_url_raises_iff (url : string) (w : world) :
  path_parts url
    = drop 3 (split "/" (with_https (take_until (λ c, Ascii.eqb c " ") url)))
  ∧ (length (path_parts url) < 2 ↔
     parse_url uuid4 url w = (Raise (ValueError invalid_url_msg), w))
  ∧ (2 ≤ length (path_parts url) ↔
     ∃ q, parse_url uuid4 url w
          = (Ok q, World (heap w) (S (uuid_drawn w)))).
Proof.
  split.
  { unfold path_parts, url_parts. by rewrite first_token_take_until. }
  destruct (parse_url_cases url w) as [[Hlen Hrun]|[Hlen [q Hrun]]];
    rewrite Hrun; split; split; try done; try lia; eauto.
  - by intros [q ?].
Qed.
End parse_url_claims.

Section parse_url_refs.
Variable uuid4 : nat → string.

Lemma char_in_hex c :
  char_in "0123456789abcdefABCDEF" c = is_hex_digit c.
Proof. destruct c as [[] [] [] [] [] [] [] []]; reflexivity. Qed.

Lemma is_commit_spec b :
  is_commit b = true ↔
  String.length b = 40 ∧ str_all is_hex_digit b = true.
Proof.
  unfold is_commit. rewrite andb_true_iff, Nat.eqb_eq.
  assert (str_all (char_in "0123456789abcdefABCDEF") b
          = str_all is_hex_digit b) as ->; [|done].
  induction b as [|c b IH]; simpl; [done|].
  by rewrite char_in_hex, IH.
Qed.

(** The reference fields of a descriptor that [parse_url] returned. *)
Lemma parse_url_ref_inv url w q w' :
  parse_url uuid4 url w = (Ok q, w') →
  match path_parts url !! 3 with
  | Some branch =>
      q !! "type" = VStr <$> path_parts url !! 2 ∧
      q !! "branch" = Some (VStr branch) ∧
      q !! "commit" = Some (if is_commit branch then VStr branch else VNone)
  | None =>
      q !! "type" = Some VNone ∧
      q !! "branch" = Some VNone ∧
      q !! "commit" = Some VNone
  end.
Proof.
  intros Hrun.
  destruct (url_parts_shape url) as (domain & segs & Hparts).
  pose proof (parse_url_fields uuid4 url w domain segs Hparts) as H.
  unfold path_parts. rewrite Hparts. simpl.
  destruct segs as [|user [|repo rest]]; [congruence..|].
  destruct H as (q' & Hq' & _ & _ & _ & H).
  assert (q' = q) as -> by congruence.
  destruct rest as [|type [|branch sub]]; simpl;
    destruct H as (? & ? & ? & ?); by repeat split.
Qed.

(** C5: the commit field is set, and then equal to the branch field,
    exactly when there is a 4th piece after the domain, of 40 characters,
    all of them hexadecimal digits in either case; otherwise it stays
    [None]. *)
Theorem parse_url_commit (url : string) (w w' : world) (q : dict) :
  parse_url uuid4 url w = (Ok q, w') →
  (is_set q "commit" ↔
   ∃ b, path_parts url !! 3 = Some b ∧ String.length b = 40 ∧
        str_all is_hex_digit b = true) ∧
  (is_set q "commit" → q !! "commit" = q !! "branch") ∧
  (¬ is_set q "commit" → q !! "commit" = Some VNone).
Proof.
  intros Hrun. pose proof (parse_url_ref_inv url w q w' Hrun) as H.
  unfold is_set.
  destruct (path_parts url !! 3) as [b|].
  - destruct H as (_ & Hb & Hc). rewrite Hb, Hc.
    pose proof (is_commit_spec b) as Hspec.
    destruct (is_commit b).
    + repeat split; try done.
      * intros _. exists b. by split; [|apply Hspec].
      * intros _. by eexists.
      * intros []. by eexists.
    + repeat split; try done.
      * intros (v & [= <-] & ?). done.
      * intros (b' & [= <-] & Hb'). by apply Hspec in Hb'.
      * intros (v & [= <-] & ?). done.
  - destruct H as (_ & Hb & Hc). rewrite Hb, Hc.
    repeat split; try done.
    + intros (v & [= <-] & ?). done.
    + by intros (b' & ? & _).
Qed.

(** C6, as the code has it: the 3rd and the 4th piece after the domain
    are recorded together, as [type] and [branch], when a 4th piece
    exists; a locator with three pieces or fewer gets neither. *)
Theorem parse_url_type_branch (url : string) (w w' : world) (q : dict) :
  parse_url uuid4 url w = (Ok q, w') →
  match path_parts url !! 3 with
  | Some branch =>
      q !! "type" = VStr <$> path_parts url !! 2 ∧
      is_set q "type" ∧
      q !! "branch" = Some (VStr branch)
  | None =>
      q !! "type" = Some VNone ∧ q !! "branch" = Some VNone
  end.
Proof.
  intros Hrun. pose proof (parse_url_ref_inv url w q w' Hrun) as H.
  destruct (path_parts url !! 3) as [b|] eqn:Hb;
    [|by destruct H as (? & ? & _)].
  destruct H as (Ht & Hbr & _). repeat split; try done.
  destruct (path_parts url !! 2) as [t|] eqn:Ht2.
  - exists (VStr t). by rewrite Ht.
  - apply lookup_ge_None in Ht2. apply lookup_lt_Some in Hb. lia.
Qed.
End parse_url_refs.


Lemma parse_url_commit_witness :
  field (parse_url test_uuid4 commit_url module_world) "commit"
  = field (parse_url test_uuid4 commit_url module_world) "branch".
Proof.
  destruct (parse_url_cases test_uuid4 commit_url module_world)
    as [[Hlen _]|[_ [q Hq]]]; [vm_compute in Hlen; lia|].
  unfold field. rewrite Hq. simpl.
  destruct (parse_url_commit test_uuid4 commit_url _ _ _ Hq) as (Hset & Heq & _).
  apply Heq, Hset. eexists. by vm_compute.
Defined.

Lemma parse_url_type_branch_witness :
  field (parse_url test_uuid4 "github.com/foo/bar/tree/main/src" module_world)
    "branch" = Some (VStr "main").
Proof.
  destruct (parse_url_cases test_uuid4 "github.com/foo/bar/tree/main/src"
              module_world) as [[Hlen _]|[_ [q Hq]]]; [vm_compute in Hlen; lia|].
  unfold field. rewrite Hq. simpl.
  pose proof (parse_url_type_branch test_uuid4 _ _ _ _ Hq) as H.
  assert (path_parts "github.com/foo/bar/tree/main/src"
          = ["foo"; "bar"; "tree"; "main"; "src"]) as E by reflexivity.
  rewrite E in H. apply H.
Defined.

(** C6 as stated fails: with exactly three pieces after the domain the
    3rd one is not recorded. *)
Lemma parse_url_three_pieces_no_type :
  let r := parse_url test_uuid4 "github.com/foo/bar/tree" module_world in
  path_parts "github.com/foo/bar/tree" = ["foo"; "bar"; "tree"] ∧
  field r "repo_name" = Some (VStr "bar") ∧
  field r "type" = Some VNone ∧
  field r "branch" = Some VNone.
Proof. by vm_compute. Qed.

(** C4 as stated fails: a tab is white space, and the locator is not cut
    there.  Cut at the tab, no piece would follow the domain; the call
    returns a descriptor all the same. *)
Lemma parse_url_tab_not_cut :
  let url := "github.com" +:+ String "009" "x/foo/bar" in
  isspace "009" = true ∧
  length (drop 3 (split "/" (with_https (take_until isspace url)))) = 0 ∧
  field (parse_url test_uuid4 url module_world) "repo_name"
    = Some (VStr "bar").
Proof. by vm_compute. Qed.

(** ** The canonical URL *)

Lemma take_until_app f a b :
  str_all (λ c, negb (f c)) a = true →
  take_until f (a +:+ b) = a +:+ take_until f b.
Proof.
  induction a as [|c a IH]; intros Ha; [done|].
  simpl in Ha. apply andb_prop in Ha as [Hc Ha].
  rewrite !str_app_cons. simpl. apply negb_true_iff in Hc.
  by rewrite Hc, IH.
Qed.

Lemma is_piece_no_slash s :
  is_piece s = true → str_all (λ c, negb (Ascii.eqb c "/")) s = true.
Proof. apply str_all_impl. by intros c [? _]%andb_prop. Qed.

Lemma is_piece_no_space s :
  is_piece s = true → str_all (λ c, negb (Ascii.eqb c " ")) s = true.
Proof. apply str_all_impl. by intros c [_ ?]%andb_prop. Qed.


Lemma startswith_https_piece host rest :
  is_piece host = true → host ≠ "https:" →
  startswith (host +:+ "/" +:+ rest) "https://" = false.
Proof.
  change ("/" +:+ rest) with (String "/" rest).
  intros Hh Hne. apply not_true_is_false. intros [r Hr]%startswith_spec.
  apply Hne.
  assert (split "/" (host +:+ String "/" rest)
          = split "/" ("https:" +:+ String "/" (String "/" r))) as Hs
    by by rewrite Hr.
  rewrite !split_app_sep in Hs by (done || by apply is_piece_no_slash).
  by injection Hs.
Qed.

Section parse_url_url.
Variable uuid4 : nat → string.

End parse_url_url.



(** ** The ignore file *)


Section parse_gitignore_facts.
Variable fs : string → option node.

(** The loop of [parse_gitignore], which appends to a list, computes the
    filtered and marked lines. *)
Lemma gitignore_loop path (lines acc : list string) :
  foldl (λ ignore_patterns line,
           let line := strip line in
           if negb (String.eqb line "") && negb (startswith line "#")
           then
             let line :=
               if path_isdir fs (path_join (dirname path) line)
               then rstrip (char_in "/") line +:+ "/"
               else line in
             ignore_patterns ++ [line]
           else ignore_patterns)
        acc lines
  = acc ++ (gitignore_mark fs path
              <$> List.filter gitignore_keep (strip <$> lines)).
Proof.
  set (step := λ (ignore_patterns : list string) (line : string), _).
  assert (∀ acc l, step acc l =
            if gitignore_keep (strip l)
            then acc ++ [gitignore_mark fs path (strip l)] else acc)
    as Hstep by done.
  clearbody step. revert acc.
  induction lines as [|l lines IH]; intros acc;
    cbn [foldl fmap list_fmap List.filter].
  - by rewrite app_nil_r.
  - rewrite IH, Hstep.
    destruct (gitignore_keep (strip l)); [|done].
    cbn [fmap list_fmap]. by rewrite <- app_assoc.
Qed.

Lemma parse_gitignore_eq path w :
  parse_gitignore fs path w =
  match fs path with
  | None => (Ok [], w)
  | Some (File text) => (Ok (gitignore_lines fs path text), w)
  | Some Dir => (Raise (IsADirectoryError path), w)
  end.
Proof.
  unfold parse_gitignore, path_exists, open_read, gitignore_lines.
  destruct (fs path) as [[text|]|]; [|done..].
  unfold mbind, M_bind, mret, M_ret. by rewrite gitignore_loop.
Qed.

End parse_gitignore_facts.

Example parse_gitignore_test :
  (parse_gitignore test_fs "/work/repo/.gitignore" module_world).1
  = Ok ["build/"; "dist/"; "*.log"].
Proof. by vm_compute. Qed.

(** ** The store *)

Section frame.
Context {A B : Type}.
Implicit Types (r : loc) (m : M A) (f : A → M B).

Lemma pure_preserves r m : pure m → preserves r m.
Proof. intros Hm w. by rewrite Hm. Qed.

Lemma pure_ret (a : A) : pure (mret a).
Proof. done. Qed.

Lemma pure_raise (e : exn) : pure (raise e : M A).
Proof. done. Qed.

Lemma pure_bind m f : pure m → (∀ a, pure (f a)) → pure (m ≫= f).
Proof.
  intros Hm Hf w. unfold mbind, M_bind. specialize (Hm w).
  destruct (m w) as [[a|e] w']; simpl in *; subst; [apply Hf|done].
Qed.

(** The continuation may rely on what the first computation returns. *)
Lemma preserves_bind_ok r (P : A → Prop) m f :
  preserves r m →
  (∀ w a w', m w = (Ok a, w') → P a) →
  (∀ a, P a → preserves r (f a)) →
  preserves r (m ≫= f).
Proof.
  intros Hm HP Hf w. unfold mbind, M_bind. specialize (Hm w).
  destruct (m w) as [[a|e] w'] eqn:E; simpl in *; [|done].
  by rewrite (Hf a (HP _ _ _ E) w').
Qed.

Lemma preserves_bind r m f :
  preserves r m → (∀ a, preserves r (f a)) → preserves r (m ≫= f).
Proof.
  intros Hm Hf. apply (preserves_bind_ok r (λ _, True)); auto.
Qed.
End frame.

Lemma pure_pass : pure pass.
Proof. done. Qed.

Lemma pure_index {A} (l : list A) i : pure (index l i).
Proof. intros w. unfold index. by destruct (l !! i). Qed.

Lemma pure_dict_get_str (d : dict) k : pure (dict_get_str d k).
Proof. intros w. unfold dict_get_str. by destruct (d !! k) as [[]|]. Qed.

Lemma pure_list_get r : pure (list_get r).
Proof. intros w. unfold list_get. by destruct (heap w !! r). Qed.

Lemma pure_list_mem r x : pure (list_mem r x).
Proof. apply pure_bind; [apply pure_list_get|]. intros l. apply pure_ret. Qed.

Lemma pure_parse_patterns x : pure (parse_patterns x).
Proof. intros w. rewrite parse_patterns_eq. by destruct (find _ _). Qed.

Lemma pure_parse_gitignore fs path : pure (parse_gitignore fs path).
Proof.
  intros w. rewrite parse_gitignore_eq. by destruct (fs path) as [[]|].
Qed.

Lemma preserves_for_ {A} r (l : list A) (body : A → M unit) :
  (∀ x, preserves r (body x)) → preserves r (for_ l body).
Proof.
  intros Hbody. induction l as [|x l IH]; [done|].
  simpl. by apply preserves_bind.
Qed.

Lemma preserves_list_set r r' l : r' ≠ r → preserves r (list_set r' l).
Proof. intros Hne w. simpl. by rewrite lookup_insert_ne. Qed.

Lemma preserves_list_extend r r' l : r' ≠ r → preserves r (list_extend r' l).
Proof.
  intros Hne. apply preserves_bind; [apply pure_preserves, pure_list_get|].
  intros l0. by apply preserves_list_set.
Qed.

Lemma preserves_list_remove r r' x : r' ≠ r → preserves r (list_remove r' x).
Proof.
  intros Hne. apply preserves_bind; [apply pure_preserves, pure_list_get|].
  intros l. destruct (bool_decide (x ∈ l)); [by apply preserves_list_set|done].
Qed.

Lemma preserves_override r r' inc :
  r' ≠ r → preserves r (override_ignore_patterns r' inc).
Proof.
  intros Hne. apply preserves_bind; [|done].
  apply preserves_for_. intros p.
  apply preserves_bind; [apply pure_preserves, pure_list_mem|].
  intros []; [by apply preserves_list_remove|done].
Qed.

(** Copying a list leaves the original alone and hands out another
    object. *)
Lemma preserves_list_copy r : preserves r (list_copy r).
Proof.
  intros w. unfold list_copy, list_get, list_new, mbind, M_bind.
  destruct (heap w !! r) as [l|] eqn:Hr; [|done].
  simpl. rewrite lookup_insert_ne; [done|].
  intros Heq. pose proof (is_fresh (dom (heap w))) as Hfresh.
  rewrite Heq in Hfresh. apply Hfresh, elem_of_dom. eauto.
Qed.

Lemma list_copy_fresh r w r' w' : list_copy r w = (Ok r', w') → r' ≠ r.
Proof.
  unfold list_copy, list_get, list_new, mbind, M_bind.
  destruct (heap w !! r) as [l|] eqn:Hr; [|done].
  intros [= <- <-] Heq. pose proof (is_fresh (dom (heap w))) as Hfresh.
  rewrite Heq in Hfresh. apply Hfresh, elem_of_dom. eauto.
Qed.

Lemma preserves_parse_url uuid4 r url : preserves r (parse_url uuid4 url).
Proof.
  intros w.
  by destruct (parse_url_cases uuid4 url w) as [[_ ->]|[_ [q ->]]].
Qed.

Lemma preserves_parse_path abspath uuid4 r path :
  preserves r (parse_path abspath uuid4 path).
Proof. done. Qed.

Section parse_query_store.
Variable fs : string → option node.
Variable abspath : string → string.
Variable uuid4 : nat → string.

(** C10: no call of [parse_query] changes the list bound to
    [DEFAULT_IGNORE_PATTERNS], whatever its arguments, the file system
    and the store it starts from, and whether it returns or raises: the
    patterns are appended to and removed from a copy. *)
Theorem parse_query_keeps_defaults
    (source : string) (max_file_size : Z) (from_web : bool)
    (include_patterns ignore_patterns : option str_or_list) (w : world) :
  heap (parse_query fs abspath uuid4 source max_file_size from_web
          include_patterns ignore_patterns w).2 !! DEFAULT_IGNORE_PATTERNS
  = heap w !! DEFAULT_IGNORE_PATTERNS.
Proof.
  revert w. change (preserves DEFAULT_IGNORE_PATTERNS
    (parse_query fs abspath uuid4 source max_file_size from_web
       include_patterns ignore_patterns)).
  unfold parse_query.
  apply preserves_bind.
  { destruct from_web;
      [apply preserves_parse_url|apply preserves_parse_path]. }
  intros query.
  apply (preserves_bind_ok _ (λ r, r ≠ DEFAULT_IGNORE_PATTERNS)).
  { apply preserves_list_copy. }
  { intros w final w'. apply list_copy_fresh. }
  intros final Hfinal.
  apply preserves_bind; [apply pure_preserves, pure_dict_get_str|].
  intros local_path.
  apply preserves_bind.
  { destruct (path_exists fs _); [|done].
    apply preserves_bind; [apply pure_preserves, pure_parse_gitignore|].
    intros patterns. by apply preserves_list_extend. }
  intros _.
  apply preserves_bind.
  { destruct (truthy ignore_patterns) as [x|]; [|done].
    apply preserves_bind; [apply pure_preserves, pure_parse_patterns|].
    intros patterns. by apply preserves_list_extend. }
  intros _.
  apply preserves_bind; [|by intros []].
  destruct (truthy include_patterns) as [x|]; [|done].
  apply preserves_bind; [apply pure_preserves, pure_parse_patterns|].
  intros patterns.
  apply preserves_bind; [by apply preserves_override|done].
Qed.
End parse_query_store.

(** The definition that [parse_query] replaces did change the shared
    list: with include patterns and no ignore patterns it removed from
    [DEFAULT_IGNORE_PATTERNS] itself. *)
Lemma shadowed_parse_query_changes_defaults :
  let r := Shadowed.parse_query test_abspath test_uuid4 "/work/repo" 10 false
             (Some (PStr "*.pyc")) None module_world in
  field r "ignore_patterns" = Some (VRef DEFAULT_IGNORE_PATTERNS) ∧
  heap r.2 !! DEFAULT_IGNORE_PATTERNS
    = Some (remove_first "*.pyc" DEFAULT_IGNORE_PATTERNS_init) ∧
  heap r.2 !! DEFAULT_IGNORE_PATTERNS
    ≠ heap module_world !! DEFAULT_IGNORE_PATTERNS.
Proof. by vm_compute. Qed.

(** ** The resolved patterns *)

Lemma bind_ok_inv {A B} (m : M A) (f : A → M B) w b w' :
  (m ≫= f) w = (Ok b, w') →
  ∃ a w1, m w = (Ok a, w1) ∧ f a w1 = (Ok b, w').
Proof.
  unfold mbind, M_bind. destruct (m w) as [[a|e] w1]; [eauto|done].
Qed.

Lemma remove_first_notin x l : x ∉ l → remove_first x l = l.
Proof.
  induction l as [|y l IH]; [done|].
  intros Hx. apply not_elem_of_cons in Hx as [Hne Hx].
  simpl. destruct (decide (x = y)); [done|]. by rewrite IH.
Qed.

Lemma list_copy_ok r w l :
  heap w !! r = Some l →
  ∃ r' w', list_copy r w = (Ok r', w') ∧ heap w' !! r' = Some l.
Proof.
  intros Hr. unfold list_copy, list_get, list_new, mbind, M_bind.
  rewrite Hr. eexists _, _. split; [done|]. simpl. apply lookup_insert_eq.
Qed.

Lemma list_extend_ok r l' w l :
  heap w !! r = Some l →
  ∃ w', list_extend r l' w = (Ok tt, w') ∧ heap w' !! r = Some (l ++ l').
Proof.
  intros Hr. unfold list_extend, list_get, list_set, mbind, M_bind.
  rewrite Hr. eexists. split; [done|]. simpl. apply lookup_insert_eq.
Qed.

(** [override_ignore_patterns] never raises; it updates the list in place
    and returns the same object. *)
Lemma override_ok r include w l :
  heap w !! r = Some l →
  ∃ w', override_ignore_patterns r include w = (Ok r, w') ∧
        heap w' !! r = Some (remove_each_once l include).
Proof.
  unfold override_ignore_patterns.
  revert w l. induction include as [|p include IH]; intros w l Hr.
  - by exists w.
  - assert (∃ w1, (b ← list_mem r p;
                   if b : bool then list_remove r p else pass) w
                  = (Ok tt, w1) ∧
                  heap w1 !! r = Some (remove_first p l)) as (w1 & Hbody & Hw1).
    { unfold list_mem, list_remove, list_get, list_set, mbind, M_bind,
        mret, M_ret.
      rewrite Hr. destruct (bool_decide (p ∈ l)) eqn:Hp.
      - rewrite Hr, Hp. eexists. split; [done|]. simpl.
        apply lookup_insert_eq.
      - exists w. split; [done|].
        apply bool_decide_eq_false in Hp. by rewrite remove_first_notin. }
    destruct (IH w1 _ Hw1) as (w' & Hrest & Hw').
    exists w'. split; [|done].
    apply bind_ok_inv in Hrest as ([] & w2 & Hfor & [= <-]).
    cbn [for_]. unfold mbind, M_bind in *. by rewrite Hbody, Hfor.
Qed.

Section parse_query_patterns.
Variable fs : string → option node.
Variable abspath : string → string.
Variable uuid4 : nat → string.

Lemma locator_heap (from_web : bool) source w q w' :
  (if from_web then parse_url uuid4 source
   else parse_path abspath uuid4 source) w = (Ok q, w') →
  heap w' = heap w.
Proof.
  destruct from_web.
  - destruct (parse_url_cases uuid4 source w) as [[_ ->]|[_ [q' ->]]];
      by intros [= <- <-].
  - by intros [= <- <-].
Qed.

(** What [parse_query] resolves, when it returns: the include patterns
    as given, and as ignore list the defaults, the patterns of the ignore
    file and the user's ignore patterns, in this order, less the first
    item equal to each include pattern. *)
Lemma parse_query_resolved
    source max_file_size from_web include_patterns ignore_patterns
    w q w' defaults :
  heap w !! DEFAULT_IGNORE_PATTERNS = Some defaults →
  parse_query fs abspath uuid4 source max_file_size from_web
    include_patterns ignore_patterns w = (Ok q, w') →
  ∃ local_path,
    q !! "local_path" = Some (VStr local_path) ∧
    ignore_list (Ok q, w')
    = Some (remove_each_once
              (defaults ++ gitignore_patterns fs local_path
                 ++ user_patterns ignore_patterns)
              (user_patterns include_patterns)) ∧
    q !! "include_patterns"
    = Some (match truthy include_patterns with
            | Some _ => VList (user_patterns include_patterns)
            | None => arg_value include_patterns
            end).
Proof.
  intros Hdefaults Hrun. unfold parse_query in Hrun.
  apply bind_ok_inv in Hrun as (q0 & w0 & Hloc & Hrun).
  apply locator_heap in Hloc as Hheap.
  rewrite <- Hheap in Hdefaults.
  destruct (list_copy_ok _ _ _ Hdefaults) as (final & w1 & Hcopy & Hfinal).
  apply bind_ok_inv in Hrun as (final' & w1' & Hcopy' & Hrun).
  rewrite Hcopy in Hcopy'. injection Hcopy' as <- <-.
  apply bind_ok_inv in Hrun as (local_path & w2 & Hlp & Hrun).
  assert (<["max_file_size" := VInt max_file_size]> q0 !! "local_path"
          = Some (VStr local_path) ∧ w2 = w1) as [Hlp' ->].
  { unfold dict_get_str in Hlp.
    destruct (_ !! "local_path") as [[]|]; try done.
    by injection Hlp as -> ->. }
  exists local_path.
  (* the ignore file *)
  apply bind_ok_inv in Hrun as ([] & w3 & Hgit & Hrun).
  assert (heap w3 !! final
          = Some (defaults ++ gitignore_patterns fs local_path)) as Hw3.
  { unfold gitignore_patterns, path_exists in *.
    destruct (fs (path_join local_path ".gitignore")) as [[text|]|] eqn:Hfs.
    - apply bind_ok_inv in Hgit as (patterns & w2 & Hpg & Hext).
      rewrite parse_gitignore_eq, Hfs in Hpg. injection Hpg as <- <-.
      destruct (list_extend_ok final (gitignore_lines fs
                  (path_join local_path ".gitignore") text) _ _ Hfinal)
        as (w3' & Hext' & ?).
      rewrite Hext' in Hext. by injection Hext as <-.
    - apply bind_ok_inv in Hgit as (patterns & w2 & Hpg & Hext).
      by rewrite parse_gitignore_eq, Hfs in Hpg.
    - injection Hgit as <-. by rewrite app_nil_r. }
  (* the user's ignore patterns *)
  apply bind_ok_inv in Hrun as ([] & w4 & Hign & Hrun).
  assert (heap w4 !! final
          = Some (defaults ++ gitignore_patterns fs local_path
                    ++ user_patterns ignore_patterns)) as Hw4.
  { unfold user_patterns.
    destruct (truthy ignore_patterns) as [x|].
    - apply bind_ok_inv in Hign as (patterns & w3' & Hpp & Hext).
      rewrite parse_patterns_eq in Hpp.
      destruct (find _ _); [done|]. injection Hpp as <- <-.
      destruct (list_extend_ok final (normalize_pattern <$> pattern_tokens x)
                  _ _ Hw3) as (w4' & Hext' & ?).
      rewrite Hext' in Hext. injection Hext as <-.
      by rewrite app_assoc.
    - injection Hign as <-. by rewrite !app_nil_r. }
  (* the include patterns *)
  apply bind_ok_inv in Hrun as ([inc final'] & w5 & Hinc & Hrun).
  injection Hrun as <- <-.
  split; [by do 2 (rewrite lookup_insert_ne by done)|].
  split; [|rewrite lookup_insert_eq].
  - unfold ignore_list, field. cbn [fst snd].
    rewrite lookup_insert_ne, lookup_insert_eq by done.
    unfold user_patterns at 2.
    destruct (truthy include_patterns) as [x|].
    + apply bind_ok_inv in Hinc as (patterns & w4' & Hpp & Hov).
      rewrite parse_patterns_eq in Hpp.
      destruct (find _ _); [done|]. injection Hpp as <- <-.
      destruct (override_ok final (normalize_pattern <$> pattern_tokens x)
                  _ _ Hw4) as (w5' & Hov' & Hw5).
      apply bind_ok_inv in Hov as (final'' & w5'' & Hov & [= <- <- <-]).
      rewrite Hov' in Hov. by injection Hov as <- <-.
    + by injection Hinc as <- <- <-.
  - unfold user_patterns.
    destruct (truthy include_patterns) as [x|].
    + apply bind_ok_inv in Hinc as (patterns & w4' & Hpp & Hov).
      rewrite parse_patterns_eq in Hpp.
      destruct (find _ _); [done|]. injection Hpp as <- <-.
      by apply bind_ok_inv in Hov as (final'' & w5'' & Hov & [= <- <- <-]).
    + by injection Hinc as <- <- <-.
Qed.
End parse_query_patterns.

Section parse_query_dispatch.
Variable fs : string → option node.
Variable abspath : string → string.
Variable uuid4 : nat → string.

(** The descriptor [parse_query] returns is the one of the locator, with
    three more fields. *)
Lemma parse_query_descriptor
    source max_file_size from_web include_patterns ignore_patterns w q w' :
  parse_query fs abspath uuid4 source max_file_size from_web
    include_patterns ignore_patterns w = (Ok q, w') →
  ∃ q0 w0 inc final,
    (if from_web then parse_url uuid4 source
     else parse_path abspath uuid4 source) w = (Ok q0, w0) ∧
    q = <["include_patterns" := inc]>
          (<["ignore_patterns" := VRef final]>
             (<["max_file_size" := VInt max_file_size]> q0)).
Proof.
  intros Hrun. unfold parse_query in Hrun.
  apply bind_ok_inv in Hrun as (q0 & w0 & Hloc & Hrun).
  apply bind_ok_inv in Hrun as (final & w1 & _ & Hrun).
  apply bind_ok_inv in Hrun as (local_path & w2 & _ & Hrun).
  apply bind_ok_inv in Hrun as ([] & w3 & _ & Hrun).
  apply bind_ok_inv in Hrun as ([] & w4 & _ & Hrun).
  apply bind_ok_inv in Hrun as ([inc final'] & w5 & _ & Hrun).
  injection Hrun as <- <-. by eexists _, _, _, _.
Qed.

(** Without the remote flag the source is parsed as a local path,
    whatever it looks like: the descriptor has no url and its local path
    is the absolute path of the source. *)
Lemma parse_query_local_unless_from_web
    source max_file_size include_patterns ignore_patterns w q w' :
  parse_query fs abspath uuid4 source max_file_size false
    include_patterns ignore_patterns w = (Ok q, w') →
  q !! "url" = Some VNone ∧
  q !! "local_path" = Some (VStr (abspath source)) ∧
  q !! "user_name" = None.
Proof.
  intros (q0 & w0 & inc & final & Hloc & ->)%parse_query_descriptor.
  injection Hloc as <- <-.
  rewrite !lookup_insert_ne by done. by repeat split.
Qed.
End parse_query_dispatch.

(** C1 fails on the code: a source that starts with [https://] and
    contains [github.com], given without the remote flag, is parsed as a
    local path by [parse_query]: no url, no user name, and the local path
    is the source made absolute.  The definition that [parse_query]
    replaces parsed it with [parse_url]. *)
Theorem parse_query_url_source_parsed_as_path :
  let source := "https://github.com/foo/bar" in
  let r := parse_query no_files test_abspath test_uuid4 source 10 false
             None None module_world in
  let r' := Shadowed.parse_query test_abspath test_uuid4 source 10 false
              None None module_world in
  startswith source "https://" || contains "github.com" source = true ∧
  field r "url" = Some VNone ∧
  field r "user_name" = None ∧
  field r "local_path" = Some (VStr (test_abspath source)) ∧
  field r "slug" = Some (VStr "foo/bar") ∧
  field r' "url" = Some (VStr "https://github.com/foo/bar") ∧
  field r' "user_name" = Some (VStr "foo").
Proof. by vm_compute. Qed.

(** C2 fails on the code: [DEFAULT_IGNORE_PATTERNS] lists ["*.swp"] twice,
    and the include pattern ["*.swp"] removes the first of the two only:
    the resolved ignore list still has the pattern. *)
Theorem parse_query_include_leaves_duplicate :
  let r := parse_query no_files test_abspath test_uuid4 "/work/repo" 10 false
             (Some (PStr "*.swp")) None module_world in
  field r "include_patterns" = Some (VList ["*.swp"]) ∧
  ignore_list r
    = Some (remove_each_once DEFAULT_IGNORE_PATTERNS_init ["*.swp"]) ∧
  (λ l, bool_decide ("*.swp" ∈ l)) <$> ignore_list r = Some true ∧
  ignore_list r ≠ Some (remove_all DEFAULT_IGNORE_PATTERNS_init ["*.swp"]).
Proof. by vm_compute. Qed.

(** * Further properties of the locator parser *)

Lemma take_until_idemp f s : take_until f (take_until f s) = take_until f s.
Proof.
  induction s as [|c s IH]; [done|].
  simpl. destruct (f c) eqn:Hc; [done|]. simpl. by rewrite Hc, IH.
Qed.

Lemma startswith_take_until f s p :
  startswith (take_until f s) p = true → startswith s p = true.
Proof.
  revert s. induction p as [|a p IH]; intros s; [done|].
  destruct s as [|b s]; [done|]. simpl.
  destruct (f b); [done|].
  intros [-> Hp]%andb_prop. by rewrite (IH _ Hp).
Qed.

Lemma split_length sep s : length (split sep s) = S (count_char sep s).
Proof.
  induction s as [|c s IH]; [done|].
  simpl. destruct (Ascii.eqb c sep); simpl; [by rewrite IH|].
  destruct (split_nonempty sep s) as (t & ts & Hs).
  rewrite Hs in *. simpl in *. done.
Qed.

Lemma str_length_app s t :
  String.length (s +:+ t) = String.length s + String.length t.
Proof.
  induction s as [|c s IH]; [done|]. rewrite str_app_cons. simpl. by rewrite IH.
Qed.

Lemma str_app_inj_r s1 s2 t : s1 +:+ t = s2 +:+ t → s1 = s2.
Proof.
  revert s2. induction s1 as [|a s1 IH]; intros [|b s2] H.
  - done.
  - apply (f_equal String.length) in H.
    rewrite str_app_empty_l, str_app_cons in H. simpl in H.
    rewrite str_length_app in H. lia.
  - apply (f_equal String.length) in H.
    rewrite str_app_empty_l, str_app_cons in H. simpl in H.
    rewrite str_length_app in H. lia.
  - rewrite !str_app_cons in H. injection H as -> H. by rewrite (IH _ H).
Qed.

Lemma join_split sep s : join (String sep "") (split sep s) = s.
Proof.
  induction s as [|c s IH]; [done|].
  destruct (split_nonempty sep s) as (t & ts & Hs).
  simpl. destruct (Ascii.eqb_spec c sep) as [->|Hne]; rewrite Hs in *.
  - change (join (String sep "") ("" :: t :: ts))
      with ("" +:+ String sep "" +:+ join (String sep "") (t :: ts)).
    by rewrite IH.
  - destruct ts as [|t' ts].
    + simpl in *. by rewrite IH.
    + change (join (String sep "") (String c t :: t' :: ts))
        with (String c (t +:+ String sep "" +:+ join (String sep "") (t' :: ts))).
      change (join (String sep "") (t :: t' :: ts))
        with (t +:+ String sep "" +:+ join (String sep "") (t' :: ts)) in IH.
      by rewrite IH.
Qed.

Section parse_url_more.
Variable uuid4 : nat → string.

(** [parse_url] looks at its argument through [url_parts] only. *)
Lemma parse_url_same_parts a b w :
  url_parts a = url_parts b → parse_url uuid4 a w = parse_url uuid4 b w.
Proof.
  intros H. unfold parse_url.
  rewrite (bind_index _ _ _ _ _ (split_lookup_0 " " a)).
  rewrite (bind_index _ _ _ _ _ (split_lookup_0 " " b)).
  fold (first_token a). fold (with_https (first_token a)).
  fold (url_parts a).
  fold (first_token b). fold (with_https (first_token b)).
  fold (url_parts b).
  by rewrite H.
Qed.

(** X1: whatever follows the first space of a locator is ignored: the call
    returns, or raises, as it does on the text before the space. *)
Theorem parse_url_ignores_trailing_text (u t : string) (w : world) :
  str_all (λ c, negb (Ascii.eqb c " ")) u = true →
  parse_url uuid4 (u +:+ " " +:+ t) w = parse_url uuid4 u w.
Proof.
  intros Hu. apply parse_url_same_parts. unfold url_parts.
  rewrite !first_token_take_until.
  set (f := λ c, Ascii.eqb c " ").
  assert (take_until f (u +:+ " " +:+ t) = u) as ->.
  { rewrite take_until_app by done. apply str_app_empty_r. }
  assert (take_until f u = u) as ->; [|done].
  rewrite <- (str_app_empty_r u) at 1.
  rewrite take_until_app by done. apply str_app_empty_r.
Qed.

(** X2: the scheme is optional: a locator that does not start with
    [https://] is parsed as the same locator with [https://] in front. *)
Theorem parse_url_scheme_optional (url : string) (w : world) :
  startswith url "https://" = false →
  parse_url uuid4 ("https://" +:+ url) w = parse_url uuid4 url w.
Proof.
  intros Hs. apply parse_url_same_parts. unfold url_parts.
  rewrite !first_token_take_until.
  rewrite take_until_app by done.
  unfold with_https.
  rewrite (proj2 (startswith_spec _ _) (ex_intro _ _ eq_refl)).
  destruct (startswith (take_until _ url) "https://") eqn:Ht; [|done].
  apply startswith_take_until in Ht. congruence.
Qed.

(** X3: [parse_url] raises exactly when the first token of the locator,
    with the scheme in front, has fewer than four slashes: two belong to
    the scheme, one ends the domain and one separates user and
    repository. *)
Theorem parse_url_raises_iff_slashes (url : string) (w : world) :
  parse_url uuid4 url w = (Raise (ValueError invalid_url_msg), w) ↔
  count_char "/" (with_https (first_token url)) < 4.
Proof.
  assert (length (path_parts url)
          = S (count_char "/" (with_https (first_token url))) - 3) as Hlen.
  { unfold path_parts, url_parts. by rewrite length_drop, split_length. }
  destruct (parse_url_cases uuid4 url w) as [[Hlt Hrun]|[Hge [q Hrun]]];
    rewrite Hrun; split; try done; lia.
Qed.
End parse_url_more.

Lemma parse_url_ignores_trailing_text_witness :
  parse_url test_uuid4 "github.com/foo/bar see the readme" module_world
  = parse_url test_uuid4 "github.com/foo/bar" module_world.
Proof.
  apply (parse_url_ignores_trailing_text test_uuid4 "github.com/foo/bar"
           "see the readme" module_world).
  reflexivity.
Defined.

Lemma parse_url_scheme_optional_witness :
  parse_url test_uuid4 "https://github.com/foo/bar" module_world
  = parse_url test_uuid4 "github.com/foo/bar" module_world.
Proof.
  apply (parse_url_scheme_optional test_uuid4 "github.com/foo/bar"
           module_world).
  reflexivity.
Defined.

Lemma take_until_none f s :
  str_all (λ c, negb (f c)) s = true → take_until f s = s.
Proof.
  intros Hs. rewrite <- (str_app_empty_r s) at 1.
  rewrite take_until_app by done. apply str_app_empty_r.
Qed.

(** The pieces of a locator written out piece by piece. *)
Lemma split_pieces sep (ps : list string) (rest : string) :
  Forall (λ p, str_all (λ c, negb (Ascii.eqb c sep)) p = true) ps →
  split sep (foldr (λ p acc, p +:+ String sep acc) rest ps)
  = ps ++ split sep rest.
Proof.
  induction 1 as [|p ps Hp _ IH]; [done|].
  cbn [foldr]. rewrite split_app_sep by done. by rewrite IH.
Qed.

Lemma url_parts_pieces (scheme : bool) host (ps : list string) rest :
  is_piece host = true → Forall (λ p, is_piece p = true) ps →
  host ≠ "https:" →
  str_all (λ c, negb (Ascii.eqb c " ")) rest = true →
  url_parts ((if scheme then "https://" else "") +:+ host +:+ "/"
               +:+ foldr (λ p acc, p +:+ String "/" acc) rest ps)
  = "https:" :: "" :: host :: ps ++ split "/" rest.
Proof.
  intros Hh Hps Hne Hrest.
  set (body := foldr _ rest ps).
  assert (str_all (λ c, negb (Ascii.eqb c " ")) body = true) as Hbody.
  { unfold body. induction Hps as [|p ps Hp _ IH]; [done|].
    cbn [foldr]. rewrite str_all_app, (is_piece_no_space _ Hp). simpl.
    exact IH. }
  unfold url_parts. rewrite first_token_take_until.
  rewrite take_until_none.
  2:{ rewrite !str_all_app, (is_piece_no_space _ Hh), Hbody.
      by destruct scheme. }
  assert (with_https ((if scheme then "https://" else "") +:+ host +:+ "/"
                        +:+ body)
          = "https://" +:+ host +:+ String "/" body) as ->.
  { unfold with_https. destruct scheme.
    - by rewrite (proj2 (startswith_spec _ _) (ex_intro _ _ eq_refl)).
    - rewrite str_app_empty_l.
      by rewrite (startswith_https_piece host _ Hh Hne). }
  rewrite split_https, split_app_sep by by apply is_piece_no_slash.
  unfold body. rewrite split_pieces; [done|].
  eapply Forall_impl; [exact Hps|]. intros p. apply is_piece_no_slash.
Qed.

Section parse_url_identity.
Variable uuid4 : nat → string.

(** The identity fields of a descriptor that [parse_url] returned, and the
    store it left. *)
Lemma parse_url_identity_run url w domain segs :
  url_parts url = "https:" :: "" :: domain :: segs →
  match segs with
  | user :: repo :: rest =>
      ∃ q, parse_url uuid4 url w
           = (Ok q, World (heap w) (S (uuid_drawn w))) ∧
        q !! "user_name" = Some (VStr user) ∧
        q !! "repo_name" = Some (VStr repo) ∧
        q !! "slug" = Some (VStr (user +:+ "-" +:+ repo)) ∧
        q !! "id" = Some (VStr (uuid4 (uuid_drawn w))) ∧
        q !! "local_path"
          = Some (VStr (TMP_BASE_PATH +:+ "/" +:+ uuid4 (uuid_drawn w)
                          +:+ "/" +:+ user +:+ "-" +:+ repo)) ∧
        q !! "subpath" = Some (VStr ("/" +:+ join "/" (drop 2 rest)))
  | _ => parse_url uuid4 url w = (Raise (ValueError invalid_url_msg), w)
  end.
Proof.
  intros Hparts. unfold parse_url.
  rewrite (bind_index _ _ _ _ _ (split_lookup_0 " " url)).
  fold (first_token url). fold (with_https (first_token url)).
  fold (url_parts url). rewrite Hparts.
  rewrite (bind_index _ 2 domain) by done.
  change (drop 3 ("https:" :: "" :: domain :: segs)) with segs.
  destruct segs as [|user [|repo rest]]; [done..|].
  change (length (user :: repo :: rest) <? 2) with false. cbv iota.
  rewrite (bind_index _ 0 user) by done.
  rewrite (bind_index _ 1 repo) by done.
  rewrite bind_uuid4.
  destruct rest as [|type [|branch sub]].
  - eexists. split; [reflexivity|]. by repeat split.
  - eexists. split; [reflexivity|]. by repeat split.
  - change (3 <? length (user :: repo :: type :: branch :: sub)) with true.
    cbv iota.
    rewrite (bind_index _ 2 type) by done.
    rewrite (bind_index _ 3 branch) by done.
    eexists. split; [reflexivity|].
    destruct (_ && _); by repeat split.
Qed.

Lemma parse_url_identity url w q w' :
  parse_url uuid4 url w = (Ok q, w') →
  ∃ user repo,
    path_parts url !! 0 = Some user ∧
    path_parts url !! 1 = Some repo ∧
    q !! "user_name" = Some (VStr user) ∧
    q !! "repo_name" = Some (VStr repo) ∧
    q !! "slug" = Some (VStr (user +:+ "-" +:+ repo)) ∧
    q !! "id" = Some (VStr (uuid4 (uuid_drawn w))) ∧
    q !! "local_path"
      = Some (VStr (TMP_BASE_PATH +:+ "/" +:+ uuid4 (uuid_drawn w) +:+ "/"
                      +:+ user +:+ "-" +:+ repo)) ∧
    q !! "subpath"
      = Some (VStr ("/" +:+ join "/" (drop 4 (path_parts url)))) ∧
    w' = World (heap w) (S (uuid_drawn w)).
Proof.
  intros Hrun.
  destruct (url_parts_shape url) as (domain & segs & Hparts).
  pose proof (parse_url_identity_run url w domain segs Hparts) as H.
  unfold path_parts. rewrite Hparts.
  change (drop 3 ("https:" :: "" :: domain :: segs)) with segs.
  destruct segs as [|user [|repo rest]]; [congruence..|].
  destruct H as (q' & Hq' & ? & ? & ? & ? & ? & ?).
  assert (q' = q ∧ w' = World (heap w) (S (uuid_drawn w))) as [-> ->].
  { rewrite Hq' in Hrun. by injection Hrun as -> ->. }
  exists user, repo. by repeat split.
Qed.

(** X4: in a descriptor [parse_url] returns, the user and the repository
    are the 1st and 2nd piece after the domain, the slug is the two joined
    by a dash, the id is the identifier drawn by this call, and the local
    path is [../tmp/<id>/<slug>]. *)
Theorem parse_url_identity_fields (url : string) (w w' : world) (q : dict) :
  parse_url uuid4 url w = (Ok q, w') →
  ∃ user repo id,
    path_parts url !! 0 = Some user ∧
    path_parts url !! 1 = Some repo ∧
    id = uuid4 (uuid_drawn w) ∧
    q !! "user_name" = Some (VStr user) ∧
    q !! "repo_name" = Some (VStr repo) ∧
    q !! "slug" = Some (VStr (user +:+ "-" +:+ repo)) ∧
    q !! "id" = Some (VStr id) ∧
    q !! "local_path"
      = Some (VStr ("../tmp/" +:+ id +:+ "/" +:+ user +:+ "-" +:+ repo)).
Proof.
  intros (user & repo & ? & ? & ? & ? & ? & ? & ? & _)%parse_url_identity.
  by exists user, repo, (uuid4 (uuid_drawn w)).
Qed.

(** X5: in a locator [host/user/repo/type/branch/rest] the sub-path is the
    rest as it stands, after a slash, whatever slashes it has itself. *)
Theorem parse_url_subpath
    (scheme : bool) (host user repo type branch rest : string) (w : world) :
  is_piece host = true → is_piece user = true → is_piece repo = true →
  is_piece type = true → is_piece branch = true →
  host ≠ "https:" →
  str_all (λ c, negb (Ascii.eqb c " ")) rest = true →
  field (parse_url uuid4
           ((if scheme then "https://" else "")
              +:+ host +:+ "/" +:+ user +:+ "/" +:+ repo +:+ "/" +:+ type
              +:+ "/" +:+ branch +:+ "/" +:+ rest) w) "subpath"
  = Some (VStr ("/" +:+ rest)).
Proof.
  intros Hh Hu Hr Ht Hb Hne Hrest.
  pose proof (url_parts_pieces scheme host [user; repo; type; branch] rest
                Hh (ltac:(by repeat constructor)) Hne Hrest) as Hparts.
  cbn [foldr] in Hparts.
  set (url := _ +:+ _) in *.
  destruct (parse_url_cases uuid4 url w) as [[Hlen _]|[_ [q Hq]]].
  { unfold path_parts in Hlen. rewrite Hparts in Hlen.
    simpl in Hlen. lia. }
  unfold field. rewrite Hq. simpl.
  apply parse_url_identity in Hq
    as (? & ? & _ & _ & _ & _ & _ & _ & _ & Hsub & _).
  rewrite Hsub. unfold path_parts. rewrite Hparts.
  change (drop 4 (drop 3 _)) with (split "/" rest).
  by rewrite join_split.
Qed.

(** X6: two calls in a row on the same locator, drawing two different
    identifiers, return different ids and different local paths. *)
Theorem parse_url_fresh_id (url : string) (w w1 w2 : world) (q1 q2 : dict) :
  uuid4 (uuid_drawn w) ≠ uuid4 (S (uuid_drawn w)) →
  parse_url uuid4 url w = (Ok q1, w1) →
  parse_url uuid4 url w1 = (Ok q2, w2) →
  q1 !! "id" ≠ q2 !! "id" ∧ q1 !! "local_path" ≠ q2 !! "local_path".
Proof.
  intros Hne
    (u1 & r1 & Hu1 & Hr1 & _ & _ & _ & Hid1 & Hlp1 & _ & ->)%parse_url_identity
    (u2 & r2 & Hu2 & Hr2 & _ & _ & _ & Hid2 & Hlp2 & _ & _)%parse_url_identity.
  simpl in *. rewrite Hid1, Hid2, Hlp1, Hlp2.
  assert (u2 = u1) as -> by congruence.
  assert (r2 = r1) as -> by congruence.
  split; [congruence|].
  intros [= H]. apply Hne.
  rewrite !str_app_empty_l in H.
  by apply str_app_inj_r in H.
Qed.
End parse_url_identity.

Lemma parse_url_identity_fields_witness :
  field (parse_url test_uuid4 "github.com/foo/bar" module_world) "slug"
  = Some (VStr "foo-bar").
Proof.
  destruct (parse_url_cases test_uuid4 "github.com/foo/bar" module_world)
    as [[Hlen _]|[_ [q Hq]]]; [vm_compute in Hlen; lia|].
  unfold field. rewrite Hq. simpl.
  destruct (parse_url_identity_fields test_uuid4 _ _ _ _ Hq)
    as (user & repo & id & Hu & Hr & _ & _ & _ & Hslug & _).
  assert (path_parts "github.com/foo/bar" = ["foo"; "bar"]) as E by reflexivity.
  rewrite E in Hu, Hr. injection Hu as <-. injection Hr as <-. exact Hslug.
Defined.

Lemma parse_url_subpath_witness :
  field (parse_url test_uuid4 "github.com/foo/bar/tree/main/src/lib//x.py"
           module_world) "subpath" = Some (VStr "/src/lib//x.py").
Proof.
  apply (parse_url_subpath test_uuid4 false "github.com" "foo" "bar" "tree"
           "main" "src/lib//x.py" module_world); try reflexivity.
  discriminate.
Defined.

Lemma parse_url_fresh_id_witness :
  ∃ q1 w1 q2 w2,
    parse_url test_uuid4 "github.com/foo/bar" module_world = (Ok q1, w1) ∧
    parse_url test_uuid4 "github.com/foo/bar" w1 = (Ok q2, w2) ∧
    q1 !! "id" ≠ q2 !! "id".
Proof.
  destruct (parse_url_cases test_uuid4 "github.com/foo/bar" module_world)
    as [[Hlen _]|[_ [q1 Hq1]]]; [vm_compute in Hlen; lia|].
  destruct (parse_url_cases test_uuid4 "github.com/foo/bar"
              (World (heap module_world) (S (uuid_drawn module_world))))
    as [[Hlen _]|[_ [q2 Hq2]]]; [vm_compute in Hlen; lia|].
  eexists q1, _, q2, _. split; [exact Hq1|]. split; [exact Hq2|].
  refine (proj1 (parse_url_fresh_id test_uuid4 _ _ _ _ _ _ _ Hq1 Hq2)).
  vm_compute. discriminate.
Defined.

(** * Further properties of the patterns *)

Lemma str_all_of_lstrip (h f : ascii → bool) s :
  (∀ c, f c = true → h c = true) →
  str_all h (lstrip f s) = true → str_all h s = true.
Proof.
  intros Hfh. induction s as [|c s IH]; [done|].
  simpl. destruct (f c) eqn:Hc; [|done].
  intros Hs. by rewrite (Hfh c Hc), IH.
Qed.

Lemma str_all_of_rstrip (h f : ascii → bool) s :
  (∀ c, f c = true → h c = true) →
  str_all h (rstrip f s) = true → str_all h s = true.
Proof.
  intros Hfh. induction s as [|c s IH]; [done|].
  simpl. destruct (rstrip f s) as [|b r].
  - intros Hc. rewrite IH by done. rewrite andb_true_r.
    destruct (f c) eqn:Hfc; [by apply Hfh|].
    simpl in Hc. by rewrite andb_true_r in Hc.
  - simpl. intros [Hc Hr]%andb_prop. by rewrite Hc, IH.
Qed.

Lemma allowed_char_not_comma c :
  allowed_char c = true → negb (Ascii.eqb c ",") = true.
Proof. destruct c as [[] [] [] [] [] [] [] []]; vm_compute; congruence. Qed.

Lemma isspace_not_comma c : isspace c = true → negb (Ascii.eqb c ",") = true.
Proof. destruct c as [[] [] [] [] [] [] [] []]; vm_compute; congruence. Qed.

(** A pattern that passes validation has no comma. *)
Lemma valid_pattern_no_comma p :
  valid_pattern p = true → str_all (λ c, negb (Ascii.eqb c ",")) p = true.
Proof.
  unfold valid_pattern, strip. intros Hv.
  apply (str_all_of_lstrip _ isspace); [apply isspace_not_comma|].
  apply (str_all_of_rstrip _ isspace); [apply isspace_not_comma|].
  revert Hv. apply str_all_impl, allowed_char_not_comma.
Qed.

Lemma split_join sep (l : list string) :
  l ≠ [] →
  Forall (λ p, str_all (λ c, negb (Ascii.eqb c sep)) p = true) l →
  split sep (join (String sep "") l) = l.
Proof.
  intros Hne Hl. induction Hl as [|x l Hx Hl IH]; [done|].
  destruct l as [|y l].
  - by apply split_no_sep.
  - change (join (String sep "") (x :: y :: l))
      with (x +:+ String sep (join (String sep "") (y :: l))).
    rewrite split_app_sep by done. by rewrite IH.
Qed.

(** The normal form of a valid pattern: allowed characters only, no
    leading separator, no trailing separator. *)
Lemma normalize_pattern_normal p :
  valid_pattern p = true →
  str_all allowed_char (normalize_pattern p) = true ∧
  lstrip (char_in (String os_sep "")) (normalize_pattern p)
    = normalize_pattern p ∧
  endswith (normalize_pattern p) os_sep = false.
Proof.
  unfold valid_pattern, normalize_pattern. intros Hv. cbv zeta.
  set (q := lstrip (char_in (String os_sep "")) (strip p)).
  assert (str_all allowed_char q = true) as Hq by by apply str_all_lstrip.
  pose proof (lstrip_head (char_in (String os_sep "")) (strip p)) as Hhd.
  fold q in Hhd.
  destruct (endswith q os_sep) eqn:He.
  - split; [by rewrite str_all_app, Hq|]. split.
    + destruct q as [|c q']; [done|].
      rewrite str_app_cons. simpl. by rewrite Hhd.
    + by rewrite endswith_app_char.
  - split; [done|]. split; [apply lstrip_idemp|done].
Qed.

Lemma normalize_pattern_valid p :
  valid_pattern p = true → valid_pattern (normalize_pattern p) = true.
Proof.
  intros (Ha & _ & _)%normalize_pattern_normal.
  unfold valid_pattern. by rewrite strip_id.
Qed.

Lemma normalize_pattern_again p :
  valid_pattern p = true →
  normalize_pattern (normalize_pattern p) = normalize_pattern p.
Proof.
  intros (Ha & Hl & He)%normalize_pattern_normal.
  by apply normalize_pattern_fixed.
Qed.

Lemma find_invalid_none (l : list string) :
  Forall (λ p, valid_pattern p = true) l →
  find (λ p, negb (valid_pattern p)) l = None.
Proof.
  induction 1 as [|p l Hp _ IH]; [done|]. simpl. by rewrite Hp.
Qed.

Lemma find_invalid_none_inv (l : list string) :
  find (λ p, negb (valid_pattern p)) l = None →
  Forall (λ p, valid_pattern p = true) l.
Proof.
  intros Hfind. apply Forall_forall. intros p Hp%list_elem_of_In.
  pose proof (find_none _ _ Hfind p Hp) as H. by apply negb_false_iff in H.
Qed.

Lemma pattern_tokens_text x : pattern_tokens x = split "," (pattern_text x).
Proof. by destruct x. Qed.

(** X7: whatever the pattern, its normal form neither starts nor ends
    with the separator. *)
Theorem normalize_pattern_no_outer_sep (p : string) :
  startswith (normalize_pattern p) "/" = false ∧
  endswith (normalize_pattern p) "/" = false.
Proof.
  unfold normalize_pattern. cbv zeta.
  set (q := lstrip (char_in (String os_sep "")) (strip p)).
  pose proof (lstrip_head (char_in (String os_sep "")) (strip p)) as Hhd.
  fold q in Hhd.
  assert (startswith q "/" = false) as Hq.
  { destruct q as [|c q']; [done|]. rewrite char_in_single in Hhd.
    change (startswith (String c q') "/") with (Ascii.eqb "/" c && true).
    rewrite Ascii.eqb_sym. unfold os_sep in Hhd. by rewrite Hhd. }
  destruct (endswith q os_sep) eqn:He.
  - split; [|by rewrite endswith_app_char].
    destruct q as [|c q']; [done|]. exact Hq.
  - done.
Qed.

(** X8: [parse_patterns] returns one pattern for each comma-separated
    token, empty tokens included: one more than there are commas. *)
Theorem parse_patterns_length
    (x : str_or_list) (w w' : world) (ps : list string) :
  parse_patterns x w = (Ok ps, w') →
  length ps = S (count_char "," (pattern_text x)).
Proof.
  rewrite parse_patterns_eq. destruct (find _ _); [done|].
  intros [= <- <-]. rewrite length_fmap, pattern_tokens_text.
  apply split_length.
Qed.

(** X9: what [parse_patterns] returns is accepted again, as a list, and
    comes back unchanged. *)
Theorem parse_patterns_reparse
    (x : str_or_list) (w w' : world) (ps : list string) :
  parse_patterns x w = (Ok ps, w') →
  parse_patterns (PList ps) w = (Ok ps, w).
Proof.
  rewrite parse_patterns_eq.
  destruct (find _ _) eqn:Hfind; [done|]. intros [= <- <-].
  apply find_invalid_none_inv in Hfind.
  set (ps := normalize_pattern <$> pattern_tokens x).
  assert (Forall (λ p, valid_pattern p = true) ps) as Hvalid.
  { apply Forall_fmap. eapply Forall_impl; [exact Hfind|].
    intros p. apply normalize_pattern_valid. }
  assert (pattern_tokens (PList ps) = ps) as Htok.
  { unfold pattern_tokens. apply split_join.
    - unfold ps. rewrite pattern_tokens_text.
      by destruct (split_nonempty "," (pattern_text x)) as (t & ts & ->).
    - eapply Forall_impl; [exact Hvalid|]. apply valid_pattern_no_comma. }
  rewrite parse_patterns_eq, Htok, (find_invalid_none _ Hvalid).
  do 2 f_equal. unfold ps. rewrite <- list_fmap_compose.
  apply Forall_fmap_ext_1. eapply Forall_impl; [exact Hfind|].
  intros p. apply normalize_pattern_again.
Qed.

(** X10: a non-empty list of valid patterns is returned item by item,
    each in normal form. *)
Theorem parse_patterns_list (l : list string) (w : world) :
  l ≠ [] →
  Forall (λ p, valid_pattern p = true) l →
  parse_patterns (PList l) w = (Ok (normalize_pattern <$> l), w).
Proof.
  intros Hne Hl.
  assert (pattern_tokens (PList l) = l) as Htok.
  { unfold pattern_tokens. apply split_join; [done|].
    eapply Forall_impl; [exact Hl|]. apply valid_pattern_no_comma. }
  by rewrite parse_patterns_eq, Htok, (find_invalid_none _ Hl).
Qed.

(** X11: a string of white space only is not rejected: it yields the one
    empty pattern. *)
Theorem parse_patterns_blank (s : string) (w : world) :
  str_all isspace s = true →
  parse_patterns (PStr s) w = (Ok [""], w).
Proof.
  intros Hs.
  assert (lstrip isspace s = "") as Hstrip.
  { induction s as [|c s IH]; [done|].
    simpl in *. apply andb_prop in Hs as [-> Hs]. by apply IH. }
  assert (pattern_tokens (PStr s) = [s]) as Htok.
  { apply split_no_sep. revert Hs. apply str_all_impl, isspace_not_comma. }
  assert (valid_pattern s = true) as Hvalid.
  { unfold valid_pattern, strip. by rewrite Hstrip. }
  assert (normalize_pattern s = "") as Hnorm.
  { unfold normalize_pattern, strip. by rewrite Hstrip. }
  rewrite parse_patterns_eq, Htok. cbn [find fmap list_fmap].
  by rewrite Hvalid, Hnorm.
Qed.

Lemma parse_patterns_length_witness :
  ∃ ps, parse_patterns (PStr "a,,b,") module_world = (Ok ps, module_world) ∧
        length ps = 4.
Proof.
  exists ["a"; ""; "b"; ""]. split; [reflexivity|].
  apply (parse_patterns_length (PStr "a,,b,") module_world module_world).
  reflexivity.
Defined.

Lemma parse_patterns_reparse_witness :
  parse_patterns (PList ["src/*"; "docs"]) module_world
  = (Ok ["src/*"; "docs"], module_world).
Proof.
  apply (parse_patterns_reparse (PStr " /src/ , docs") module_world
           module_world).
  reflexivity.
Defined.

Lemma parse_patterns_list_witness :
  parse_patterns (PList ["build/"; " *.log"]) module_world
  = (Ok ["build/*"; "*.log"], module_world).
Proof.
  apply (parse_patterns_list ["build/"; " *.log"] module_world).
  - discriminate.
  - repeat constructor.
Defined.

Lemma parse_patterns_blank_witness :
  parse_patterns (PStr "  ") module_world = (Ok [""], module_world).
Proof. apply (parse_patterns_blank "  " module_world). reflexivity. Defined.

(** * Further properties of the override *)

Lemma remove_first_sublist x l : sublist (remove_first x l) l.
Proof.
  induction l as [|y l IH]; [done|].
  simpl. destruct (decide (x = y)); [by apply sublist_cons|].
  by apply sublist_skip.
Qed.

Lemma remove_first_length x l : length l ≤ S (length (remove_first x l)).
Proof.
  induction l as [|y l IH]; simpl; [lia|].
  destruct (decide (x = y)); simpl; lia.
Qed.

Lemma remove_each_once_sublist l include :
  sublist (remove_each_once l include) l.
Proof.
  unfold remove_each_once. revert l.
  induction include as [|p include IH]; intros l; [done|].
  simpl. etrans; [apply IH|]. apply remove_first_sublist.
Qed.

Lemma remove_each_once_length l include :
  length l ≤ length (remove_each_once l include) + length include.
Proof.
  unfold remove_each_once. revert l.
  induction include as [|p include IH]; intros l; simpl; [lia|].
  pose proof (IH (remove_first p l)). pose proof (remove_first_length p l).
  lia.
Qed.



(** X12: [override_ignore_patterns] never raises.  It returns the list
    object it was given, updated in place: what is left is a sub-list of
    what was there, in the same order, shorter by at most one item for each
    include pattern; every other list object is as before. *)
Theorem override_in_place
    (r : loc) (include l : list string) (w : world) :
  heap w !! r = Some l →
  ∃ w' l',
    override_ignore_patterns r include w = (Ok r, w') ∧
    heap w' !! r = Some l' ∧
    sublist l' l ∧
    length l ≤ length l' + length include ∧
    ∀ r', r' ≠ r → heap w' !! r' = heap w !! r'.
Proof.
  intros Hr. destruct (override_ok r include w l Hr) as (w' & Hrun & Hw').
  exists w', (remove_each_once l include).
  split; [done|]. split; [done|].
  split; [apply remove_each_once_sublist|].
  split; [apply remove_each_once_length|].
  intros r' Hne.
  pose proof (preserves_override r' r include (not_eq_sym Hne) w) as H.
  by rewrite Hrun in H.
Qed.


Lemma override_in_place_witness :
  ∃ w' l',
    override_ignore_patterns 0 ["*.log"; "src"] two_lists = (Ok 0, w') ∧
    heap w' !! 0 = Some l' ∧ length l' ≥ 1.
Proof.
  destruct (override_in_place 0 ["*.log"; "src"] ["*.log"; "build"; "*.log"]
              two_lists eq_refl) as (w' & l' & Hrun & Hl' & _ & Hlen & _).
  exists w', l'. split; [done|]. split; [done|]. simpl in Hlen. lia.
Defined.


(** * Further properties of the ignore file *)

Lemma rstrip_head f c s :
  match rstrip f (String c s) with
  | "" => True
  | String a _ => a = c
  end.
Proof. simpl. destruct (rstrip f s); by destruct (f c). Qed.

Section parse_gitignore_more.
Variable fs : string → option node.

(** X14: no pattern that [parse_gitignore] returns is empty, and none
    starts with [#]. *)
Theorem parse_gitignore_no_blank_no_comment
    (path : string) (w w' : world) (ps : list string) :
  parse_gitignore fs path w = (Ok ps, w') →
  Forall (λ p, p ≠ "" ∧ startswith p "#" = false) ps.
Proof.
  rewrite parse_gitignore_eq.
  destruct (fs path) as [[text|]|]; [|done|by intros [= <- <-]].
  intros [= <- <-]. unfold gitignore_lines.
  apply Forall_fmap, Forall_forall. intros line Hline%list_elem_of_In.
  apply filter_In in Hline as [_ Hkeep].
  unfold gitignore_keep in Hkeep.
  apply andb_prop in Hkeep as [Hne Hc].
  apply negb_true_iff in Hne, Hc.
  unfold gitignore_mark, compose.
  destruct (path_isdir fs (path_join (dirname path) line));
    [|split; [by intros ->|done]].
  destruct line as [|c line]; [done|].
  pose proof (rstrip_head (char_in "/") c line) as Hhd.
  destruct (rstrip (char_in "/") (String c line)) as [|a r].
  - done.
  - subst a. rewrite str_app_cons. split; [done|].
    change (startswith (String c (r +:+ "/")) "#")
      with (Ascii.eqb "#" c && true).
    change (startswith (String c line) "#")
      with (Ascii.eqb "#" c && true) in Hc.
    exact Hc.
Qed.
End parse_gitignore_more.

Lemma parse_gitignore_no_blank_no_comment_witness :
  ∃ ps, parse_gitignore test_fs "/work/repo/.gitignore" module_world
        = (Ok ps, module_world) ∧
        Forall (λ p, p ≠ "" ∧ startswith p "#" = false) ps.
Proof.
  eexists. split; [reflexivity|].
  apply (parse_gitignore_no_blank_no_comment test_fs "/work/repo/.gitignore"
           module_world module_world).
  reflexivity.
Defined.

(** * Further properties of [parse_query] *)

Lemma filter_out_cons (p : string) (include l : list string) :
  List.filter (λ y, negb (bool_decide (y ∈ include)))
    (List.filter (λ y, negb (bool_decide (y = p))) l)
  = List.filter (λ y, negb (bool_decide (y ∈ p :: include))) l.
Proof.
  induction l as [|y l IH]; [done|]. simpl.
  destruct (decide (y = p)) as [->|Hne].
  - rewrite bool_decide_true by done.
    rewrite (bool_decide_true (p ∈ p :: include))
      by (apply elem_of_cons; by left).
    exact IH.
  - rewrite bool_decide_false by done. simpl. rewrite IH.
    destruct (bool_decide (y ∈ include)) eqn:Hy.
    + apply bool_decide_eq_true in Hy.
      rewrite (bool_decide_true (y ∈ p :: include)); [done|].
      apply elem_of_cons. by right.
    + apply bool_decide_eq_false in Hy.
      rewrite (bool_decide_false (y ∈ p :: include)); [done|].
      by intros [?|?]%elem_of_cons.
Qed.

Lemma filter_out_absent (x : string) (l : list string) :
  occurs x l = 0 → List.filter (λ y, negb (bool_decide (y = x))) l = l.
Proof.
  unfold occurs. induction l as [|y l IH]; [done|]. simpl.
  destruct (bool_decide (y = x)); simpl; [done|].
  intros H. by rewrite IH.
Qed.

Lemma remove_first_once (x : string) (l : list string) :
  occurs x l ≤ 1 →
  remove_first x l = List.filter (λ y, negb (bool_decide (y = x))) l.
Proof.
  unfold occurs. induction l as [|y l IH]; [done|]. simpl.
  destruct (decide (x = y)) as [->|Hne].
  - rewrite bool_decide_true by done. simpl. intros H.
    symmetry. apply filter_out_absent. unfold occurs. lia.
  - rewrite bool_decide_false by congruence. simpl.
    intros H. by rewrite IH.
Qed.

Lemma occurs_filter_le (x p : string) (l : list string) :
  occurs x (List.filter (λ y, negb (bool_decide (y = p))) l) ≤ occurs x l.
Proof.
  unfold occurs. induction l as [|y l IH]; [done|]. simpl.
  destruct (bool_decide (y = p)); simpl;
    destruct (bool_decide (y = x)); simpl; lia.
Qed.

(** Include patterns that occur at most once in the list are subtracted
    from it. *)
Lemma remove_each_once_at_most_once (l include : list string) :
  Forall (λ p, occurs p l ≤ 1) include →
  remove_each_once l include = remove_all l include.
Proof.
  unfold remove_each_once, remove_all. revert l.
  induction include as [|p include IH]; intros l Hinc; simpl.
  - induction l as [|y l IHl]; [done|]. simpl. by rewrite <- IHl.
  - apply Forall_cons in Hinc as [Hp Hinc].
    rewrite (remove_first_once p l Hp), IH; [apply filter_out_cons|].
    eapply Forall_impl; [exact Hinc|]. intros x Hx. cbn beta.
    etrans; [apply occurs_filter_le|done].
Qed.

Section parse_query_more.
Variable fs : string → option node.
Variable abspath : string → string.
Variable uuid4 : nat → string.

(** X15: with the remote flag, a locator with fewer than two pieces after
    the domain is refused before anything else happens: the error is the
    one of [parse_url] and the store is as it was. *)
Theorem parse_query_invalid_locator
    (source : string) (max_file_size : Z)
    (include_patterns ignore_patterns : option str_or_list) (w : world) :
  length (path_parts source) < 2 →
  parse_query fs abspath uuid4 source max_file_size true
    include_patterns ignore_patterns w
  = (Raise (ValueError invalid_url_msg), w).
Proof.
  intros Hlen. unfold parse_query, mbind, M_bind.
  destruct (parse_url_cases uuid4 source w) as [[_ ->]|[? _]]; [done|lia].
Qed.

Lemma parse_path_eq path w :
  parse_path abspath uuid4 path w
  = (Ok (list_to_map
           [ ("local_path", VStr (abspath path));
             ("slug", VStr (basename (dirname path) +:+ "/"
                              +:+ basename path));
             ("subpath", VStr "/");
             ("id", VStr (uuid4 (uuid_drawn w)));
             ("url", VNone) ]),
     World (heap w) (S (uuid_drawn w))).
Proof. done. Qed.

(** X16: for a local source, an ignore pattern with a character that is
    not allowed makes [parse_query] raise the error of [parse_patterns],
    naming the first such token, whatever the include patterns are. *)
Theorem parse_query_invalid_ignore
    (source : string) (max_file_size : Z)
    (include_patterns ignore_patterns : option str_or_list)
    (x : str_or_list) (p : string) (defaults : list string) (w : world) :
  heap w !! DEFAULT_IGNORE_PATTERNS = Some defaults →
  fs (path_join (abspath source) ".gitignore") ≠ Some Dir →
  truthy ignore_patterns = Some x →
  find (λ p, negb (valid_pattern p)) (pattern_tokens x) = Some p →
  (parse_query fs abspath uuid4 source max_file_size false
     include_patterns ignore_patterns w).1
  = Raise (ValueError (invalid_pattern_msg p)).
Proof.
  intros Hdefaults Hfs Hign Hfind.
  unfold parse_query. unfold mbind at 1, M_bind at 1.
  rewrite parse_path_eq.
  set (w0 := World (heap w) (S (uuid_drawn w))).
  destruct (list_copy_ok DEFAULT_IGNORE_PATTERNS w0 defaults Hdefaults)
    as (final & w1 & Hcopy & Hfinal).
  unfold mbind at 1, M_bind at 1. rewrite Hcopy.
  unfold mbind at 1, M_bind at 1.
  assert (∀ q0 : dict, q0 !! "local_path" = Some (VStr (abspath source)) →
            dict_get_str (<["max_file_size" := VInt max_file_size]> q0)
              "local_path" w1 = (Ok (abspath source), w1)) as Hlp.
  { intros q0 Hq0. unfold dict_get_str.
    by rewrite lookup_insert_ne, Hq0 by done. }
  rewrite Hlp by done.
  unfold mbind at 1, M_bind at 1.
  assert (∃ w2 l2,
            (if path_exists fs (path_join (abspath source) ".gitignore")
             then parse_gitignore fs (path_join (abspath source) ".gitignore")
                  ≫= λ gitignore_patterns,
                       list_extend final gitignore_patterns
             else pass) w1 = (Ok tt, w2) ∧ heap w2 !! final = Some l2)
    as (w2 & l2 & -> & Hw2).
  { unfold path_exists.
    destruct (fs (path_join (abspath source) ".gitignore")) as [[text|]|]
      eqn:Hgit.
    - unfold mbind, M_bind. rewrite parse_gitignore_eq, Hgit.
      destruct (list_extend_ok final (gitignore_lines fs
                  (path_join (abspath source) ".gitignore") text) _ _ Hfinal)
        as (w2 & -> & ?). eauto.
    - done.
    - exists w1, defaults. by split. }
  unfold mbind at 1, M_bind at 1. rewrite Hign.
  unfold mbind at 1, M_bind at 1.
  by rewrite parse_patterns_eq, Hfind.
Qed.

(** Every list that existed before the call is as it was after it; the
    ignore list is the one object the call made. *)
Lemma parse_query_frame
    source max_file_size from_web include_patterns ignore_patterns w q w' :
  parse_query fs abspath uuid4 source max_file_size from_web
    include_patterns ignore_patterns w = (Ok q, w') →
  q !! "ignore_patterns" = Some (VRef (fresh (dom (heap w)))) ∧
  (∃ defaults, heap w !! DEFAULT_IGNORE_PATTERNS = Some defaults) ∧
  ∀ r, r ≠ fresh (dom (heap w)) → heap w' !! r = heap w !! r.
Proof.
  intros Hrun. unfold parse_query in Hrun.
  apply bind_ok_inv in Hrun as (q0 & w0 & Hloc & Hrun).
  apply locator_heap in Hloc as Hheap.
  apply bind_ok_inv in Hrun as (final & w1 & Hcopy & Hrun).
  assert (∃ defaults, heap w0 !! DEFAULT_IGNORE_PATTERNS = Some defaults ∧
            final = fresh (dom (heap w0)) ∧
            heap w1 = <[final := defaults]> (heap w0))
    as (defaults & Hdefaults & -> & Hw1).
  { unfold list_copy, list_get, list_new, mbind, M_bind in Hcopy.
    destruct (heap w0 !! DEFAULT_IGNORE_PATTERNS) as [l|]; [|done].
    injection Hcopy as <- <-. by exists l. }
  rewrite Hheap in *.
  set (final := fresh (dom (heap w))) in *.
  assert (q !! "ignore_patterns" = Some (VRef final)) as Hfield.
  { apply bind_ok_inv in Hrun as (local_path & w2 & _ & Hrun).
    apply bind_ok_inv in Hrun as ([] & w3 & _ & Hrun).
    apply bind_ok_inv in Hrun as ([] & w4 & _ & Hrun).
    apply bind_ok_inv in Hrun as ([inc final'] & w5 & Hinc & Hrun).
    injection Hrun as <- <-.
    rewrite lookup_insert_ne, lookup_insert_eq by done.
    destruct (truthy include_patterns) as [x|].
    - apply bind_ok_inv in Hinc as (patterns & w4' & _ & Hov).
      apply bind_ok_inv in Hov as (final'' & w5'' & Hov & [= <- <- <-]).
      unfold override_ignore_patterns in Hov.
      by apply bind_ok_inv in Hov as ([] & ? & _ & [= <- <-]).
    - by injection Hinc as <- <- <-. }
  split; [done|]. split; [eauto|].
  intros r Hr.
  lazymatch type of Hrun with
  | ?t w1 = _ => assert (preserves r t) as Hpres
  end.
  { apply preserves_bind; [apply pure_preserves, pure_dict_get_str|].
    intros local_path.
    apply preserves_bind.
    { destruct (path_exists fs _); [|done].
      apply preserves_bind; [apply pure_preserves, pure_parse_gitignore|].
      intros patterns. by apply preserves_list_extend. }
    intros _.
    apply preserves_bind.
    { destruct (truthy ignore_patterns) as [x|]; [|done].
      apply preserves_bind; [apply pure_preserves, pure_parse_patterns|].
      intros patterns. by apply preserves_list_extend. }
    intros _.
    apply preserves_bind; [|by intros []].
    destruct (truthy include_patterns) as [x|]; [|done].
    apply preserves_bind; [apply pure_preserves, pure_parse_patterns|].
    intros patterns.
    apply preserves_bind; [by apply preserves_override|done]. }
  specialize (Hpres w1). rewrite Hrun in Hpres. simpl in Hpres.
  rewrite Hpres, Hw1. by apply lookup_insert_ne.
Qed.

(** X17: the ignore list of the descriptor is a list object made by this
    call: it did not exist before, and every list that did, the defaults
    among them, is unchanged. *)
Theorem parse_query_fresh_list
    (source : string) (max_file_size : Z) (from_web : bool)
    (include_patterns ignore_patterns : option str_or_list)
    (w w' : world) (q : dict) :
  parse_query fs abspath uuid4 source max_file_size from_web
    include_patterns ignore_patterns w = (Ok q, w') →
  ∃ final,
    q !! "ignore_patterns" = Some (VRef final) ∧
    heap w !! final = None ∧
    is_Some (heap w' !! final) ∧
    final ≠ DEFAULT_IGNORE_PATTERNS ∧
    ∀ r, r ≠ final → heap w' !! r = heap w !! r.
Proof.
  intros Hrun.
  destruct (parse_query_frame _ _ _ _ _ _ _ _ Hrun)
    as (Hfield & [defaults Hdefaults] & Hframe).
  exists (fresh (dom (heap w))).
  assert (heap w !! fresh (dom (heap w)) = None) as Hfresh
    by apply not_elem_of_dom, is_fresh.
  split; [done|]. split; [done|]. split; [|split; [congruence|done]].
  destruct (parse_query_resolved fs abspath uuid4 _ _ _ _ _ _ _ _ _
              Hdefaults Hrun) as (lp & _ & Hlist & _).
  unfold ignore_list, field in Hlist. simpl in Hlist.
  rewrite Hfield in Hlist. eauto.
Qed.

(** X18: without include patterns ([None], the empty string or the empty
    list) nothing is removed: the ignore list is the defaults, the patterns
    of the ignore file and the user's ignore patterns, in this order, and
    the field [include_patterns] holds the argument as it was given. *)
Theorem parse_query_without_include
    (source : string) (max_file_size : Z) (from_web : bool)
    (include_patterns ignore_patterns : option str_or_list)
    (w w' : world) (q : dict) (defaults : list string) :
  heap w !! DEFAULT_IGNORE_PATTERNS = Some defaults →
  truthy include_patterns = None →
  parse_query fs abspath uuid4 source max_file_size from_web
    include_patterns ignore_patterns w = (Ok q, w') →
  ∃ local_path,
    q !! "local_path" = Some (VStr local_path) ∧
    ignore_list (Ok q, w')
    = Some (defaults ++ gitignore_patterns fs local_path
              ++ user_patterns ignore_patterns) ∧
    q !! "include_patterns" = Some (arg_value include_patterns).
Proof.
  intros Hdefaults Hinc Hrun.
  destruct (parse_query_resolved fs abspath uuid4 _ _ _ _ _ _ _ _ _
              Hdefaults Hrun) as (lp & Hlp & Hlist & Hfield).
  exists lp. split; [done|].
  unfold user_patterns at 2 in Hlist. rewrite Hinc in Hlist, Hfield.
  by split.
Qed.

(** X19: include patterns that occur at most once among the defaults, the
    patterns of the ignore file and the user's ignore patterns are
    subtracted: the ignore list keeps, in order, the items equal to no
    include pattern. *)
Theorem parse_query_subtracts_single_occurrences
    (source : string) (max_file_size : Z) (from_web : bool)
    (include_patterns ignore_patterns : option str_or_list)
    (w w' : world) (q : dict) (defaults : list string) (local_path : string) :
  heap w !! DEFAULT_IGNORE_PATTERNS = Some defaults →
  parse_query fs abspath uuid4 source max_file_size from_web
    include_patterns ignore_patterns w = (Ok q, w') →
  q !! "local_path" = Some (VStr local_path) →
  Forall (λ p, occurs p (defaults ++ gitignore_patterns fs local_path
                           ++ user_patterns ignore_patterns) ≤ 1)
    (user_patterns include_patterns) →
  ignore_list (Ok q, w')
  = Some (List.filter
            (λ p, negb (bool_decide (p ∈ user_patterns include_patterns)))
            (defaults ++ gitignore_patterns fs local_path
               ++ user_patterns ignore_patterns)).
Proof.
  intros Hdefaults Hrun Hlp Hocc.
  destruct (parse_query_resolved fs abspath uuid4 _ _ _ _ _ _ _ _ _
              Hdefaults Hrun) as (lp & Hlp' & Hlist & _).
  assert (lp = local_path) as -> by congruence.
  by rewrite Hlist, remove_each_once_at_most_once.
Qed.

(** X20: [parse_query] passes the size limit through as it is, and keeps
    every field of the locator's descriptor: it adds [max_file_size],
    [ignore_patterns] and [include_patterns], nothing else. *)
Theorem parse_query_keeps_locator_fields
    (source : string) (max_file_size : Z) (from_web : bool)
    (include_patterns ignore_patterns : option str_or_list)
    (w w' : world) (q : dict) :
  parse_query fs abspath uuid4 source max_file_size from_web
    include_patterns ignore_patterns w = (Ok q, w') →
  q !! "max_file_size" = Some (VInt max_file_size) ∧
  ∃ q0 w0,
    (if from_web then parse_url uuid4 source
     else parse_path abspath uuid4 source) w = (Ok q0, w0) ∧
    ∀ k, k ≠ "max_file_size" → k ≠ "ignore_patterns" →
         k ≠ "include_patterns" → q !! k = q0 !! k.
Proof.
  intros (q0 & w0 & inc & final & Hloc & ->)%parse_query_descriptor.
  split; [by rewrite !lookup_insert_ne, lookup_insert_eq by done|].
  exists q0, w0. split; [done|]. intros k ???.
  by rewrite !lookup_insert_ne by done.
Qed.
End parse_query_more.

(** The call at hand returned: the other outcome is ruled out by running
    it. *)
Ltac returned E q w' :=
  lazymatch goal with
  | |- context [parse_query ?fs ?ap ?u ?s ?m ?fw ?inc ?ign ?w] =>
      destruct (parse_query fs ap u s m fw inc ign w) as [[q|?] w'] eqn:E;
      [|apply (f_equal returns) in E; vm_compute in E; discriminate]
  end.

Lemma parse_query_invalid_locator_witness :
  parse_query no_files test_abspath test_uuid4 "github.com/foo" 10 true
    None None module_world
  = (Raise (ValueError invalid_url_msg), module_world).
Proof.
  apply (parse_query_invalid_locator no_files test_abspath test_uuid4
           "github.com/foo" 10 None None module_world).
  vm_compute. lia.
Defined.

Lemma parse_query_invalid_ignore_witness :
  (parse_query no_files test_abspath test_uuid4 "repo" 10 false
     (Some (PStr "n@pe")) (Some (PStr "*.log, b@d ,w!rse")) module_world).1
  = Raise (ValueError (invalid_pattern_msg " b@d ")).
Proof.
  apply (parse_query_invalid_ignore no_files test_abspath test_uuid4
           "repo" 10 (Some (PStr "n@pe")) (Some (PStr "*.log, b@d ,w!rse"))
           (PStr "*.log, b@d ,w!rse") " b@d " DEFAULT_IGNORE_PATTERNS_init
           module_world); try reflexivity.
  discriminate.
Defined.

Lemma parse_query_fresh_list_witness :
  ∃ q w' final,
    parse_query test_fs test_abspath test_uuid4 "repo" 10 false
      (Some (PStr "*.log")) None module_world = (Ok q, w') ∧
    q !! "ignore_patterns" = Some (VRef final) ∧
    heap w' !! DEFAULT_IGNORE_PATTERNS
    = heap module_world !! DEFAULT_IGNORE_PATTERNS.
Proof.
  returned E q w'.
  destruct (parse_query_fresh_list _ _ _ _ _ _ _ _ _ _ _ E)
    as (final & Hfield & _ & _ & Hne & Hframe).
  exists q, w', final. split; [done|]. split; [done|].
  apply Hframe. congruence.
Defined.

Lemma parse_query_without_include_witness :
  ∃ q w',
    parse_query test_fs test_abspath test_uuid4 "repo" 10 false
      (Some (PStr "")) (Some (PStr "docs/")) module_world = (Ok q, w') ∧
    q !! "include_patterns" = Some (VStr "") ∧
    ignore_list (Ok q, w')
    = Some (DEFAULT_IGNORE_PATTERNS_init
              ++ ["build/"; "dist/"; "*.log"] ++ ["docs/*"]).
Proof.
  returned E q w'.
  destruct (parse_query_without_include test_fs test_abspath test_uuid4
              "repo" 10 false (Some (PStr "")) (Some (PStr "docs/"))
              module_world w' q DEFAULT_IGNORE_PATTERNS_init
              eq_refl eq_refl E)
    as (lp & Hlp & Hlist & Hfield).
  exists q, w'. split; [done|]. split; [done|].
  destruct (parse_query_local_unless_from_web _ _ _ _ _ _ _ _ _ _ E)
    as (_ & Hlp' & _).
  assert (lp = test_abspath "repo") as -> by congruence.
  exact Hlist.
Defined.

Lemma parse_query_subtracts_single_occurrences_witness :
  ∃ q w' l,
    parse_query test_fs test_abspath test_uuid4 "repo" 10 false
      (Some (PStr "*.pyc,build/")) None module_world = (Ok q, w') ∧
    ignore_list (Ok q, w') = Some l ∧
    bool_decide ("*.pyc" ∈ l) = false.
Proof.
  returned E q w'.
  destruct (parse_query_local_unless_from_web _ _ _ _ _ _ _ _ _ _ E)
    as (_ & Hlp & _).
  eexists q, w', _. split; [done|]. split.
  - apply (parse_query_subtracts_single_occurrences test_fs test_abspath
             test_uuid4 "repo" 10 false (Some (PStr "*.pyc,build/")) None
             module_world w' q DEFAULT_IGNORE_PATTERNS_init
             (test_abspath "repo") eq_refl E Hlp).
    apply (bool_decide_unpack _). vm_compute. exact I.
  - vm_compute. reflexivity.
Defined.

Lemma parse_query_keeps_locator_fields_witness :
  ∃ q w',
    parse_query no_files test_abspath test_uuid4
      "github.com/foo/bar" (-1) true None None module_world = (Ok q, w') ∧
    q !! "max_file_size" = Some (VInt (-1)).
Proof.
  returned E q w'. exists q, w'. split; [done|].
  apply (parse_query_keeps_locator_fields _ _ _ _ _ _ _ _ _ _ _ E).
Defined.

(** * Further properties of the local locator *)

Lemma rsplit_sep_no_sep y :
  str_all (λ c, negb (Ascii.eqb c os_sep)) y = true →
  rsplit_sep y = ("", y).
Proof.
  induction y as [|c y IH]; [done|].
  simpl. intros [Hc Hy]%andb_prop. rewrite (IH Hy).
  apply negb_true_iff in Hc. by rewrite Hc.
Qed.

Lemma rsplit_sep_app a y :
  str_all (λ c, negb (Ascii.eqb c os_sep)) y = true →
  rsplit_sep (a +:+ String os_sep y) = (a +:+ String os_sep "", y).
Proof.
  intros Hy. induction a as [|c a IH].
  - rewrite !str_app_empty_l. simpl. by rewrite (rsplit_sep_no_sep y Hy).
  - rewrite !str_app_cons. cbn [rsplit_sep]. rewrite IH.
    destruct (Ascii.eqb c os_sep); [done|].
    by destruct a.
Qed.

Lemma rstrip_app_char f x c :
  f c = true → x ≠ "" → str_all (λ a, negb (f a)) x = true →
  rstrip f (x +:+ String c "") = x.
Proof.
  intros Hc. induction x as [|a x IH]; [done|].
  intros _ [Ha Hx]%andb_prop. apply negb_true_iff in Ha.
  rewrite str_app_cons. destruct x as [|b x].
  - rewrite str_app_empty_l. simpl. by rewrite Hc, Ha.
  - rewrite rstrip_cons_nonempty; rewrite IH by done; done.
Qed.

Lemma rstrip_app_nonempty f s t :
  rstrip f t ≠ "" → rstrip f (s +:+ t) = s +:+ rstrip f t.
Proof.
  intros Ht. induction s as [|a s IH]; [done|].
  rewrite !str_app_cons. rewrite rstrip_cons_nonempty; rewrite IH; [done|].
  destruct s; [done|]. by rewrite str_app_cons.
Qed.

Lemma str_all_sep_false x :
  x ≠ "" → str_all (λ c, negb (Ascii.eqb c os_sep)) x = true →
  str_all (Ascii.eqb os_sep) x = false.
Proof.
  destruct x as [|a x]; [done|]. intros _ [Ha _]%andb_prop.
  change (str_all (Ascii.eqb os_sep) (String a x))
    with (Ascii.eqb os_sep a && str_all (Ascii.eqb os_sep) x).
  apply negb_true_iff in Ha. rewrite Ascii.eqb_sym in Ha.
  by rewrite Ha.
Qed.

(** The last component of a path, and the path without it. *)
Lemma basename_app d y :
  d = "" ∨ (∃ pre, d = pre +:+ String os_sep "") →
  str_all (λ c, negb (Ascii.eqb c os_sep)) y = true →
  basename (d +:+ y) = y.
Proof.
  unfold basename. intros [->|[pre ->]] Hy.
  - by rewrite str_app_empty_l, rsplit_sep_no_sep.
  - rewrite str_app_assoc. change (String os_sep "" +:+ y) with (String os_sep y).
    by rewrite rsplit_sep_app.
Qed.

Lemma dirname_app d x y :
  x ≠ "" →
  str_all (λ c, negb (Ascii.eqb c os_sep)) x = true →
  str_all (λ c, negb (Ascii.eqb c os_sep)) y = true →
  dirname (d +:+ x +:+ String os_sep y) = d +:+ x.
Proof.
  intros Hne Hx Hy. unfold dirname.
  rewrite <- str_app_assoc, rsplit_sep_app by done. cbn [fst].
  assert (String.eqb ((d +:+ x) +:+ String os_sep "") "" = false) as ->.
  { destruct d; [destruct x|]; done. }
  assert (str_all (Ascii.eqb os_sep) ((d +:+ x) +:+ String os_sep "") = false)
    as ->.
  { rewrite !str_all_app, (str_all_sep_false x Hne Hx).
    by rewrite andb_false_r. }
  cbn [negb andb]. rewrite str_app_assoc.
  assert (rstrip (Ascii.eqb os_sep) (x +:+ String os_sep "") = x) as Hx'.
  { apply rstrip_app_char; [apply Ascii.eqb_refl|done|].
    revert Hx. apply str_all_impl. intros c Hc. by rewrite Ascii.eqb_sym. }
  rewrite rstrip_app_nonempty; by rewrite Hx'.
Qed.

Section parse_path_more.
Variable abspath : string → string.
Variable uuid4 : nat → string.

(** X21: the slug of a local path is its last two components joined by a
    slash, wherever the path starts; a path that ends in a slash has an
    empty last component. *)
Theorem parse_path_slug (d x y : string) (w : world) :
  d = "" ∨ (∃ pre, d = pre +:+ "/") →
  x ≠ "" →
  str_all (λ c, negb (Ascii.eqb c "/")) x = true →
  str_all (λ c, negb (Ascii.eqb c "/")) y = true →
  field (parse_path abspath uuid4 (d +:+ x +:+ "/" +:+ y) w) "slug"
  = Some (VStr (x +:+ "/" +:+ y)).
Proof.
  intros Hd Hne Hx Hy.
  change (field (parse_path abspath uuid4 (d +:+ x +:+ "/" +:+ y) w) "slug")
    with (Some (VStr (basename (dirname (d +:+ x +:+ String os_sep y))
                        +:+ "/" +:+ basename (d +:+ x +:+ String os_sep y)))).
  rewrite dirname_app by done.
  rewrite (basename_app d x) by done.
  replace (d +:+ x +:+ String os_sep y)
    with (((d +:+ x) +:+ String os_sep "") +:+ y)
    by (by rewrite !str_app_assoc).
  rewrite basename_app; [done| |done]. right. by eexists.
Qed.

(** X22: a path of one component, without any slash, has no parent to
    name: its slug is a slash and the component. *)
Theorem parse_path_slug_single (y : string) (w : world) :
  str_all (λ c, negb (Ascii.eqb c "/")) y = true →
  field (parse_path abspath uuid4 y w) "slug" = Some (VStr ("/" +:+ y)).
Proof.
  intros Hy.
  change (field (parse_path abspath uuid4 y w) "slug")
    with (Some (VStr (basename (dirname y) +:+ "/" +:+ basename y))).
  unfold dirname, basename. by rewrite (rsplit_sep_no_sep y Hy).
Qed.
End parse_path_more.

Lemma parse_path_slug_witness :
  field (parse_path test_abspath test_uuid4 "/home/me/projects/repo"
           module_world) "slug" = Some (VStr "projects/repo").
Proof.
  apply (parse_path_slug test_abspath test_uuid4 "/home/me/" "projects" "repo"
           module_world); try reflexivity.
  - right. by exists "/home/me".
  - discriminate.
Defined.

Lemma parse_path_slug_single_witness :
  field (parse_path test_abspath test_uuid4 "repo" module_world) "slug"
  = Some (VStr "/repo").
Proof.
  apply (parse_path_slug_single test_abspath test_uuid4 "repo" module_world).
  reflexivity.
Defined.

(** * The replaced definition of [parse_query] *)

Lemma truthy_Some_ne x y : truthy x = Some y → y ≠ PStr "".
Proof.
  destruct x as [[s|l]|]; simpl; [| |done].
  - destruct (String.eqb_spec s ""); [done|]. intros [= <-]. congruence.
  - destruct (bool_decide (l = [])); [done|]. by intros [= <-].
Qed.

Section shadowed_parse_query.
Variable abspath : string → string.
Variable uuid4 : nat → string.

Lemma shadowed_locator_heap (from_web : bool) source w q w' :
  (if from_web then parse_url uuid4 source
   else if startswith source "https://" || contains "github.com" source
        then parse_url uuid4 source
        else parse_path abspath uuid4 source) w = (Ok q, w') →
  heap w' = heap w.
Proof.
  destruct from_web;
    [|destruct (startswith source "https://" || contains "github.com" source)];
    intros H.
  - exact (locator_heap abspath uuid4 true source w q w' H).
  - exact (locator_heap abspath uuid4 true source w q w' H).
  - exact (locator_heap abspath uuid4 false source w q w' H).
Qed.

(** X23: the first definition of [parse_query] worked on the shared list:
    without ignore patterns the ignore list of its descriptor is the
    object bound to [DEFAULT_IGNORE_PATTERNS], and the include patterns are
    removed from that object. *)
Theorem shadowed_parse_query_aliases_defaults
    (source : string) (max_file_size : Z) (from_web : bool)
    (include_patterns ignore_patterns : option str_or_list)
    (w w' : world) (q : dict) (defaults : list string) :
  heap w !! DEFAULT_IGNORE_PATTERNS = Some defaults →
  truthy ignore_patterns = None →
  Shadowed.parse_query abspath uuid4 source max_file_size from_web
    include_patterns ignore_patterns w = (Ok q, w') →
  q !! "ignore_patterns" = Some (VRef DEFAULT_IGNORE_PATTERNS) ∧
  heap w' !! DEFAULT_IGNORE_PATTERNS
  = Some (remove_each_once defaults (user_patterns include_patterns)).
Proof.
  intros Hdefaults Hign Hrun. unfold Shadowed.parse_query in Hrun.
  apply bind_ok_inv in Hrun as (q0 & w0 & Hloc & Hrun).
  apply shadowed_locator_heap in Hloc. rewrite <- Hloc in Hdefaults.
  rewrite Hign in Hrun.
  apply bind_ok_inv in Hrun as (r & w1 & [= <- <-] & Hrun).
  apply bind_ok_inv in Hrun as ([inc final] & w2 & Hinc & Hrun).
  injection Hrun as <- <-.
  rewrite lookup_insert_ne, lookup_insert_eq by done.
  unfold user_patterns.
  destruct (truthy include_patterns) as [x|] eqn:Htruthy.
  - rewrite bool_decide_false in Hinc by by eapply truthy_Some_ne.
    apply bind_ok_inv in Hinc as (patterns & w1' & Hpp & Hov).
    rewrite parse_patterns_eq in Hpp.
    destruct (find _ _); [done|]. injection Hpp as <- <-.
    destruct (override_ok DEFAULT_IGNORE_PATTERNS
                (normalize_pattern <$> pattern_tokens x) _ _ Hdefaults)
      as (w2' & Hov' & Hw2).
    apply bind_ok_inv in Hov as (final' & w2'' & Hov & [= <- <- <-]).
    rewrite Hov' in Hov. by injection Hov as <- <-.
  - by injection Hinc as <- <- <-.
Qed.

(** X24: the first definition of [parse_query] looked at the source when
    the remote flag was not set: a source that starts with [https://] or
    contains [github.com] was parsed as a remote locator, any other as a
    local path. *)
Theorem shadowed_parse_query_dispatch
    (source : string) (max_file_size : Z)
    (include_patterns ignore_patterns : option str_or_list)
    (w w' : world) (q : dict) :
  Shadowed.parse_query abspath uuid4 source max_file_size false
    include_patterns ignore_patterns w = (Ok q, w') →
  if startswith source "https://" || contains "github.com" source
  then ∃ user, path_parts source !! 0 = Some user ∧
               q !! "user_name" = Some (VStr user) ∧ is_set q "url"
  else q !! "url" = Some VNone ∧
       q !! "local_path" = Some (VStr (abspath source)).
Proof.
  intros Hrun. unfold Shadowed.parse_query in Hrun.
  apply bind_ok_inv in Hrun as (q0 & w0 & Hloc & Hrun).
  apply bind_ok_inv in Hrun as (r & w1 & _ & Hrun).
  apply bind_ok_inv in Hrun as ([inc final] & w2 & _ & Hrun).
  injection Hrun as <- <-.
  destruct (startswith source "https://" || contains "github.com" source).
  - pose proof Hloc as Hid.
    apply parse_url_identity in Hid as (user & repo & Hu & _ & Hun & _).
    exists user. split; [done|].
    split; [by rewrite !lookup_insert_ne by done|].
    destruct (url_parts_shape source) as (domain & segs & Hparts).
    pose proof (parse_url_fields uuid4 source w domain segs Hparts) as H.
    destruct segs as [|u [|r' rest]]; [congruence..|].
    destruct H as (q' & Hq' & _ & _ & Hurl & _).
    assert (q' = q0) as -> by congruence.
    eexists. by rewrite !lookup_insert_ne by done.
  - injection Hloc as <- <-.
    by rewrite !lookup_insert_ne by done.
Qed.
End shadowed_parse_query.

Ltac shadowed_returned E q w' :=
  lazymatch goal with
  | |- context [Shadowed.parse_query ?ap ?u ?s ?m ?fw ?inc ?ign ?w] =>
      destruct (Shadowed.parse_query ap u s m fw inc ign w)
        as [[q|?] w'] eqn:E;
      [|apply (f_equal returns) in E; vm_compute in E; discriminate]
  end.

Lemma shadowed_parse_query_aliases_defaults_witness :
  ∃ q w',
    Shadowed.parse_query test_abspath test_uuid4 "repo" 10 false
      (Some (PStr "*.pyc")) None module_world = (Ok q, w') ∧
    heap w' !! DEFAULT_IGNORE_PATTERNS
    = Some (remove_first "*.pyc" DEFAULT_IGNORE_PATTERNS_init).
Proof.
  shadowed_returned E q w'. exists q, w'. split; [done|].
  apply (shadowed_parse_query_aliases_defaults test_abspath test_uuid4
           "repo" 10 false (Some (PStr "*.pyc")) None module_world w' q
           DEFAULT_IGNORE_PATTERNS_init eq_refl eq_refl E).
Defined.

Lemma shadowed_parse_query_dispatch_witness :
  ∃ q w',
    Shadowed.parse_query test_abspath test_uuid4 "git@github.com/foo/bar"
      10 false None None module_world = (Ok q, w') ∧
    is_set q "url".
Proof.
  shadowed_returned E q w'. exists q, w'. split; [done|].
  pose proof (shadowed_parse_query_dispatch test_abspath test_uuid4
                "git@github.com/foo/bar" 10 None None module_world w' q E)
    as H.
  assert (startswith "git@github.com/foo/bar" "https://"
          || contains "github.com" "git@github.com/foo/bar" = true) as Hc
    by reflexivity.
  rewrite Hc in H. by destruct H as (user & _ & _ & H).
Defined.
